(** * billy-router: the mount table, path resolution and the router facade

    A shallow embedding of [router.go] (package [router]): the prefix tree of
    mount points ([subRoute]), [cleanPath], [Mount], [Umount],
    [resolvePathWithMount], and the operations of the facade that the
    properties below talk about ([Create], [Open], [OpenFile], [Rename],
    [ReadDir], [TempFile]).

    Go strings are byte strings and are modelled by [string]; a Go
    [map[string]*subRoute] is a [gmap string subRoute]; an interface value that
    may be [nil] is an [option]; a [panic] is an explicit outcome.  Every
    node of the table is referenced from one place, its parent, so the tree
    of pointers is a tree of values.  The operations are taken one at a
    time: the lock of the router is not modelled, and the clock is an
    argument. *)

From Stdlib Require Import Ascii.
From stdpp Require Import gmap strings list fin_maps sorting.

Open Scope string_scope.

(** ** The functions of Go's standard library that the router calls

    [strings.Split], [strings.Join], [strings.TrimRight] and [path.Clean] are
    not part of the repository; they are modelled after their documentation,
    specialised to the separator ["/"] that the router always passes. *)
Module Go.

Definition isSlash (c : ascii) : bool := bool_decide (c = "/"%char).

(** [strings.Split(s, "/")]: the pieces between the separators; the result
    is never empty, and [Split("", "/")] is [[""]]. *)
Fixpoint Split (s : string) : list string :=
  match s with
  | EmptyString => [""]
  | String c rest =>
      if isSlash c then "" :: Split rest
      else match Split rest with
           | piece :: pieces => String c piece :: pieces
           | [] => [String c ""]
           end
  end.

(** [strings.Join(elems, "/")]. *)
Fixpoint Join (elems : list string) : string :=
  match elems with
  | [] => ""
  | [e] => e
  | e :: rest => e +:+ "/" +:+ Join rest
  end.

(** [strings.TrimRight(s, "/")]: [s] without its trailing slashes. *)
Fixpoint TrimRight (s : string) : string :=
  match s with
  | EmptyString => ""
  | String c rest =>
      let rest' := TrimRight rest in
      if isSlash c && bool_decide (rest' = "") then "" else String c rest'
  end.

(** The element loop of [path.Clean].  [out] is the buffer written so far,
    as a stack of elements (last one first); empty and ["."] elements are
    dropped, a [".."] removes the last real element when there is one, is
    appended when the path is not rooted, and is dropped at the root. *)
Fixpoint cleanElems (rooted : bool) (elems out : list string) : list string :=
  match elems with
  | [] => out
  | e :: rest =>
      if bool_decide (e = "") || bool_decide (e = ".") then
        cleanElems rooted rest out
      else if bool_decide (e = "..") then
        match out with
        | top :: out' =>
            if bool_decide (top = "..")
            then cleanElems rooted rest (if rooted then out else ".." :: out)
            else cleanElems rooted rest out'
        | [] => cleanElems rooted rest (if rooted then [] else [".."])
        end
      else cleanElems rooted rest (e :: out)
  end.

(** [path.Clean(path)]. *)
Definition Clean (path : string) : string :=
  match path with
  | EmptyString => "."
  | String c _ =>
      let rooted := isSlash c in
      let out := Join (rev (cleanElems rooted (Split path) [])) in
      if rooted then "/" +:+ out
      else if bool_decide (out = "") then "." else out
  end.

End Go.

(** ** Errors, panics and results *)

(** The error values that occur: the sentinels of [os] and [billy], an
    [*os.PathError], [fmt.Errorf("...: %w", err)], and any other error of a
    backend. *)
Inductive error :=
  | ErrNotExist
  | ErrPermission
  | ErrInvalid
  | ErrNotSupported
  | PathError (op path : string) (err : error)
  | Errorf (msg : string) (wrapped : error)
  | BackendError (msg : string).

(** [os.IsNotExist] looks through a [PathError] but not through [%w]. *)
Definition IsNotExist (e : error) : bool :=
  match e with
  | ErrNotExist | PathError _ _ ErrNotExist => true
  | _ => false
  end.

(** A Go result [(T, error)]. *)
Inductive result (A : Type) :=
  | Ok (a : A)
  | Err (e : error).
Arguments Ok {A} a.
Arguments Err {A} e.

(** What a [panic] carries: the error of [Umount], or a run-time error
    (a method called on [nil], the comparison of two values of a type that
    is not comparable). *)
Inductive panicValue :=
  | NotAMountpoint (p : string)
  | NilDereference
  | Uncomparable.

Inductive outcome (A : Type) :=
  | Returned (a : A)
  | Panicked (v : panicValue).
Arguments Returned {A} a.
Arguments Panicked {A} v.

(** [time.Time], as clock ticks; the zero value is [0]. *)
Definition Time := nat.

(** ** [os.FileInfo] values *)

Record realInfo := RealInfo {
  ri_name : string;
  ri_size : Z;
  ri_mode : N;
  ri_modTime : Time;
  ri_isDir : bool
}.

Record virtualDir := VirtualDir {
  vd_name : string;
  vd_mtime : Time
}.

(** A listing entry is what a backend returned, or a [virtualDir]. *)
Inductive FileInfo :=
  | Real (i : realInfo)
  | Virtual (v : virtualDir).

Definition ModeDir : N := N.shiftl 1 31.

Definition Name (i : FileInfo) : string :=
  match i with Real r => ri_name r | Virtual v => vd_name v end.
Definition Size (i : FileInfo) : Z :=
  match i with Real r => ri_size r | Virtual _ => 4096 end.
Definition Mode (i : FileInfo) : N :=
  match i with Real r => ri_mode r | Virtual _ => N.lor 493 ModeDir end.
Definition ModTime (i : FileInfo) : Time :=
  match i with Real r => ri_modTime r | Virtual v => vd_mtime v end.
Definition IsDir (i : FileInfo) : bool :=
  match i with Real r => ri_isDir r | Virtual _ => true end.

(** ** [cleanPath] *)

Definition cleanPath (p : string) : string :=
  let p := Go.TrimRight (Go.Clean p) in
  if bool_decide (p = ".") then p else "".

(** The normalization rule as the specification words it, for comparison:
    the cleaned path without trailing separator, and the empty string for a
    path that cleans to ["."]. *)
Definition specCleanPath (p : string) : string :=
  let p := Go.TrimRight (Go.Clean p) in
  if bool_decide (p = ".") then "" else p.

(** ** The backends

    [billy.Filesystem] is an interface; the router only ever calls it.  The
    type [Filesystem] stands for the backend objects the mount table holds
    (the values [polyfill.New] returns, compared by identity), [File] for the
    file handles they return, and the methods give the answer of a backend to
    a call. *)
Class Billy (Filesystem File : Type) := {
  fsCreate : Filesystem → string → result File;
  fsOpen : Filesystem → string → result File;
  fsOpenFile : Filesystem → string → Z → N → result File;
  fsRename : Filesystem → string → string → option error;
  fsReadDir : Filesystem → string → result (list FileInfo);
  fsStat : Filesystem → string → result FileInfo;
  fsTempFile : Filesystem → string → string → result File;
  fileName : File → string
}.

(** [fromFS == toFS] compares two interface values.  Go answers whether
    their dynamic types and their values are identical, and panics when the
    dynamic types are identical and the values cannot be compared: the type
    is a struct with a slice, map or function field, for one.  The table can
    hold such a value, since [polyfill.New] hands on a backend that already is
    a [billy.Filesystem] as it is.  [comparable x y] says that the comparison
    of the backend objects [x] and [y] returns; what it returns then is
    whether they are the same object. *)
Class Comparable (Filesystem : Type) :=
  comparable : Filesystem → Filesystem → bool.

(** [out[fn]] of a Go map is total; the value for a missing name is never
    used, since the names listed are those of [out]. *)
#[global] Instance FileInfo_inhabited : Inhabited FileInfo :=
  populate (Virtual (VirtualDir "" 0)).

Section Router.
Context {Filesystem File : Type} `{!EqDecision Filesystem}.
Context `{!Billy Filesystem File} `{!Comparable Filesystem}.

(** *** The mount table *)

#[local] Unset Elimination Schemes.
Inductive subRoute := SubRoute {
  fs : option Filesystem;
  mtime : Time;
  routes : gmap string subRoute
}.
#[local] Set Elimination Schemes.

Definition renameCallback : Type :=
  option Filesystem → option Filesystem → string → string → option error.

Record Router := MkRouter {
  Router_routes : subRoute;
  crossFilesystemRenameCallback : renameCallback
}.

Definition crossFilesystemRenameNotSupported : renameCallback :=
  λ fromFS toFS fromPath toPath,
    Some (Errorf "renaming across virtual mountpoints is not supported" ErrInvalid).

(** [New(root)]; [root] is the wrapped root backend and [now] the clock. *)
Definition New (root : Filesystem) (now : Time) : Router :=
  {| Router_routes := SubRoute (Some root) now ∅;
     crossFilesystemRenameCallback := crossFilesystemRenameNotSupported |}.

(** [&subRoute{routes: map[string]*subRoute{}}] *)
Definition newSubRoute : subRoute := SubRoute None 0 ∅.

(** The loop of [Mount], from the node [sr] on, over the segments that are
    left; the node reached last gets the backend. *)
Fixpoint mountLoop (sp : list string) (b : Filesystem) (now : Time)
    (sr : subRoute) : subRoute :=
  match sp with
  | [] => SubRoute (Some b) (mtime sr) (routes sr)
  | seg :: rest =>
      let s := match routes sr !! seg with
               | Some s => s
               | None => newSubRoute
               end in
      let s := SubRoute (fs s) now (routes s) in
      SubRoute (fs sr) (mtime sr) (<[seg := mountLoop rest b now s]> (routes sr))
  end.

Definition Mount (r : Router) (p : string) (b : Filesystem) (now : Time) : Router :=
  let p := cleanPath p in
  let sp := Go.Split p in
  {| Router_routes := mountLoop sp b now (Router_routes r);
     crossFilesystemRenameCallback := crossFilesystemRenameCallback r |}.

(** [len(sr.routes) > 0 || sr.fs != nil] *)
Definition inUse (sr : subRoute) : bool :=
  bool_decide (0 < size (routes sr)) || bool_decide (fs sr ≠ None).

(** The two loops of [Umount] from the node [sr] on.  Going down is the
    first loop: [None] is the panic at a missing segment, before anything
    is changed.  At the end of the path the backend is cleared.  Coming
    back up is the second loop, from [len(sp)] down to 1: the boolean tells
    whether it is still running when it comes to [sr], that is, whether it
    has not met its [break]. *)
Fixpoint umountLoop (sp : list string) (now : Time) (sr : subRoute)
    : option (subRoute * bool) :=
  match sp with
  | [] => Some (SubRoute None (mtime sr) (routes sr), true)
  | seg :: rest =>
      match routes sr !! seg with
      | None => None
      | Some s =>
          match umountLoop rest now s with
          | None => None
          | Some (s', running) =>
              if running && negb (inUse s')
              then Some (SubRoute (fs sr) now (delete seg (routes sr)), true)
              else Some (SubRoute (fs sr) (mtime sr) (<[seg := s']> (routes sr)), false)
          end
      end
  end.

Definition Umount (r : Router) (p : string) (now : Time) : outcome Router :=
  let p := cleanPath p in
  let sp := Go.Split p in
  match umountLoop sp now (Router_routes r) with
  | None => Panicked (NotAMountpoint p)
  | Some (sr, _) =>
      Returned {| Router_routes := sr;
                  crossFilesystemRenameCallback := crossFilesystemRenameCallback r |}
  end.


(** *** Path resolution *)

(** The loop of [resolvePathWithMount]: [i] is the index of the segment
    looked at, the result is [lastMount] when the loop ends. *)
Fixpoint resolveLoop (sp : list string) (i : nat) (sr : subRoute)
    (lastMount : nat) : nat :=
  match sp with
  | [] => lastMount
  | seg :: rest =>
      match routes sr !! seg with
      | None => lastMount
      | Some s =>
          resolveLoop rest (S i) s
            (if bool_decide (fs s ≠ None) then i else lastMount)
      end
  end.

Definition resolvePathWithMount (r : Router) (p : string)
    : string * string * option Filesystem :=
  let p := cleanPath p in
  let sp := Go.Split p in
  let sr := Router_routes r in
  let mount := fs sr in
  let lastMount := resolveLoop sp 0 sr 0 in
  (Go.Join (drop lastMount sp), Go.Join (take lastMount sp), mount).

Definition resolvePath (r : Router) (p : string) : string * option Filesystem :=
  let '(sub, _, b) := resolvePathWithMount r p in (sub, b).

(** *** Resolution as the specification words it

    The node at a path of segments, the backend bound there, and the
    longest-prefix match: the deepest prefix of the segments whose node has
    a backend, the root (depth 0) counting as bound. *)
Fixpoint nodeAt (sp : list string) (sr : subRoute) : option subRoute :=
  match sp with
  | [] => Some sr
  | seg :: rest =>
      match routes sr !! seg with
      | None => None
      | Some s => nodeAt rest s
      end
  end.

Definition boundAt (sp : list string) (sr : subRoute) : option Filesystem :=
  match nodeAt sp sr with
  | Some s => fs s
  | None => None
  end.

Fixpoint deepestBound (sp : list string) (sr : subRoute) (k : nat) : nat :=
  match k with
  | 0 => 0
  | S k' =>
      if bool_decide (boundAt (take k sp) sr ≠ None) then k
      else deepestBound sp sr k'
  end.

(** The deepest bound prefix of the segments [sp]: the path of the nearest
    enclosing mount. *)
Definition deepestBoundPath (sr : subRoute) (sp : list string) : list string :=
  take (deepestBound sp sr (length sp)) sp.

Definition specResolve (r : Router) (p : string)
    : string * string * option Filesystem :=
  let sp := Go.Split (cleanPath p) in
  let d := deepestBound sp (Router_routes r) (length sp) in
  (Go.Join (drop d sp), Go.Join (take d sp), boundAt (take d sp) (Router_routes r)).

(** *** Calls to the backends

    What the router does to the outside is the sequence of calls it makes:
    a method of a backend, or the cross-backend rename callback.  An
    operation yields that sequence and its outcome; a method called on a
    [nil] backend panics. *)
Inductive Call :=
  | CallCreate (b : Filesystem) (p : string)
  | CallOpen (b : Filesystem) (p : string)
  | CallOpenFile (b : Filesystem) (p : string) (flag : Z) (mode : N)
  | CallRename (b : Filesystem) (from to : string)
  | CallReadDir (b : Filesystem) (p : string)
  | CallStat (b : Filesystem) (p : string)
  | CallTempFile (b : Filesystem) (dir pre : string)
  | CallCrossRename (fromFS toFS : option Filesystem) (fromPath toPath : string).

Definition M (A : Type) : Type := list Call * outcome A.

#[global] Instance M_ret : MRet M := λ A a, ([], Returned a).
#[global] Instance M_bind : MBind M := λ A B k m,
  match m with
  | (calls, Returned a) => let '(calls', b) := k a in ((calls ++ calls')%list, b)
  | (calls, Panicked v) => (calls, Panicked v)
  end.

Definition invoke {A} (recv : option Filesystem) (c : Filesystem → Call)
    (answer : Filesystem → A) : M A :=
  match recv with
  | Some b => ([c b], Returned (answer b))
  | None => ([], Panicked NilDereference)
  end.

(** *** The facade *)

Record wrappedFile := WrappedFile {
  wrapped : File;
  originalName : string
}.

Definition wrappedFile_Name (f : wrappedFile) : string := originalName f.

Definition Create (r : Router) (p : string) : M (result wrappedFile) :=
  let '(sub, b) := resolvePath r p in
  res ← invoke b (λ b, CallCreate b sub) (λ b, fsCreate b sub);
  match res with
  | Err err => mret (Err err)
  | Ok fh => mret (Ok (WrappedFile fh p))
  end.

Definition Open (r : Router) (p : string) : M (result wrappedFile) :=
  let '(sub, b) := resolvePath r p in
  res ← invoke b (λ b, CallOpen b sub) (λ b, fsOpen b sub);
  match res with
  | Err err => mret (Err err)
  | Ok fh => mret (Ok (WrappedFile fh p))
  end.

Definition OpenFile (r : Router) (p : string) (flag : Z) (mode : N)
    : M (result wrappedFile) :=
  let '(sub, b) := resolvePath r p in
  res ← invoke b (λ b, CallOpenFile b sub flag mode) (λ b, fsOpenFile b sub flag mode);
  match res with
  | Err err => mret (Err err)
  | Ok fh => mret (Ok (WrappedFile fh p))
  end.

(** [a == b] on two values of type [billy.Filesystem]; [nil] equals
    [nil] only. *)
Definition interfaceEq (a b : option Filesystem) : M bool :=
  match a, b with
  | Some x, Some y =>
      if comparable x y then mret (bool_decide (x = y))
      else ([], Panicked Uncomparable)
  | None, None => mret true
  | _, _ => mret false
  end.

(** The body of [Rename] once both paths are resolved; [&&] evaluates the
    comparison of the backends first. *)
Definition renameResolved (callback : renameCallback)
    (from to : string * string * option Filesystem) : M (option error) :=
  let '(fromSub, fromMount, fromFS) := from in
  let '(toSub, toMount, toFS) := to in
  same ← interfaceEq fromFS toFS;
  if same && bool_decide (fromMount = toMount)
  then invoke fromFS (λ b, CallRename b fromSub toSub) (λ b, fsRename b fromSub toSub)
  else ([CallCrossRename fromFS toFS fromSub toSub],
        Returned (callback fromFS toFS fromSub toSub)).

Definition Rename (r : Router) (from to : string) : M (option error) :=
  renameResolved (crossFilesystemRenameCallback r)
    (resolvePathWithMount r from) (resolvePathWithMount r to).

Definition TempFile (r : Router) (dir pre : string) : M (result File) :=
  if bool_decide (dir = "") then
    let root := fs (Router_routes r) in
    invoke root (λ b, CallTempFile b dir pre) (λ b, fsTempFile b dir pre)
  else
    let '(sub, b) := resolvePath r dir in
    invoke b (λ b, CallTempFile b sub pre) (λ b, fsTempFile b sub pre).

(** *** [ReadDir] *)

(** The walk of [ReadDir] to the node of the listed directory; it stops at
    the first segment that has no node. *)
Fixpoint readDirLoop (sp : list string) (sr : subRoute) : subRoute :=
  match sp with
  | [] => sr
  | seg :: rest =>
      match routes sr !! seg with
      | None => sr
      | Some s => readDirLoop rest s
      end
  end.

(** [for _, e := range entries { out[e.Name()] = e }] *)
Definition indexEntries (entries : list FileInfo) : gmap string FileInfo :=
  foldl (λ out e, <[Name e := e]> out) ∅ entries.

(** One round of the loop over [routeCopy]. *)
Definition overlayRoute (mp : string) (ro : subRoute)
    (out : gmap string FileInfo) : M (result (gmap string FileInfo)) :=
  match fs ro with
  | None =>
      match out !! mp with
      | Some e =>
          if IsDir e then mret (Ok out)
          else mret (Ok (<[mp := Virtual (VirtualDir mp (mtime ro))]> out))
      | None => mret (Ok (<[mp := Virtual (VirtualDir mp (mtime ro))]> out))
      end
  | Some b =>
      st ← invoke (Some b) (λ b, CallStat b "/") (λ b, fsStat b "/");
      match st with
      | Err err => mret (Err err)
      | Ok i => mret (Ok (<[mp := i]> out))
      end
  end.

Fixpoint overlayRoutes (routeCopy : list (string * subRoute))
    (out : gmap string FileInfo) : M (result (gmap string FileInfo)) :=
  match routeCopy with
  | [] => mret (Ok out)
  | (mp, ro) :: rest =>
      res ← overlayRoute mp ro out;
      match res with
      | Err err => mret (Err err)
      | Ok out' => overlayRoutes rest out'
      end
  end.

(** [sort.Strings] orders byte-wise. *)
Definition stringLe (a b : string) : Prop := String.leb a b = true.

#[global] Instance stringLe_dec a b : Decision (stringLe a b).
Proof. unfold stringLe. apply _. Defined.

(** The names of [out], sorted, and the entries in that order. *)
Definition sortedNames (out : gmap string FileInfo) : list string :=
  merge_sort stringLe (map_to_list out).*1.

Definition sortedListing (out : gmap string FileInfo) : list FileInfo :=
  (λ fn, out !!! fn) <$> sortedNames out.

(** [ReadDir] from the point where the entries of the backend are known:
    index them by name, lay the children of the node over them, and return
    the result in the order of the names. *)
Definition mergeEntries (routeCopy : list (string * subRoute))
    (entries : list FileInfo) : M (result (list FileInfo)) :=
  merged ← overlayRoutes routeCopy (indexEntries entries);
  match merged with
  | Err err => mret (Err err)
  | Ok out => mret (Ok (sortedListing out))
  end.

(** Go leaves the order in which [range] visits a map open; [rangeOrder]
    is the order taken, any enumeration of the map. *)
Section ReadDir.
Variable rangeOrder : gmap string subRoute → list (string * subRoute).

Definition ReadDir (r : Router) (p : string) : M (result (list FileInfo)) :=
  let '(sub, b) := resolvePath r p in
  let sp := Go.Split p in
  let sr := readDirLoop sp (Router_routes r) in
  if bool_decide (size (routes sr) = 0) then
    invoke b (λ b, CallReadDir b sub) (λ b, fsReadDir b sub)
  else
    let routeCopy := rangeOrder (routes sr) in
    res ← invoke b (λ b, CallReadDir b sub) (λ b, fsReadDir b sub);
    match res with
    | Err err =>
        if negb (IsNotExist err) then mret (Err err)
        else mergeEntries routeCopy []
    | Ok entries => mergeEntries routeCopy entries
    end.
End ReadDir.

(** *** Predicates on tables and call sequences *)

(** A node is live when it has a backend or a live child; a tree is free
    of garbage when every node below its root is live. *)
Inductive live : subRoute → Prop :=
  | live_bound sr : fs sr ≠ None → live sr
  | live_child sr seg s : routes sr !! seg = Some s → live s → live sr.

Inductive garbageFree : subRoute → Prop :=
  | garbageFree_node sr :
      (∀ seg s, routes sr !! seg = Some s → live s) →
      (∀ seg s, routes sr !! seg = Some s → garbageFree s) →
      garbageFree sr.

(** The same, by paths: every node below the root reaches a backend (it
    has one, or a node below it has one); no node below the root is
    without backend and without children. *)
Definition reachesBackend (n : subRoute) : Prop :=
  ∃ q b, boundAt q n = Some b.

Definition noGarbage (sr : subRoute) : Prop :=
  ∀ q n, q ≠ [] → nodeAt q sr = Some n → reachesBackend n.

Definition noEmptyNode (sr : subRoute) : Prop :=
  ∀ q n, q ≠ [] → nodeAt q sr = Some n → ¬ (fs n = None ∧ routes n = ∅).

(** Induction on the tree, through the number of its nodes. *)
Fixpoint nodeCount (sr : subRoute) : nat :=
  S (map_fold (λ _ s n, nodeCount s + n) 0 (routes sr)).

(** A call sequence that has the cross-backend callback in it. *)
Definition invokesCallback {A} (m : M A) : Prop :=
  ∃ fromFS toFS fromPath toPath, CallCrossRename fromFS toFS fromPath toPath ∈ m.1.

(** What the loop over [routeCopy] puts at the name [mp] of the child
    [ro], given the real entry of that name, if there is one. *)
Definition overlaid (mp : string) (ro : subRoute) (real : option FileInfo)
    (x : FileInfo) : Prop :=
  match fs ro with
  | None =>
      match real with
      | Some e => if IsDir e then x = e else x = Virtual (VirtualDir mp (mtime ro))
      | None => x = Virtual (VirtualDir mp (mtime ro))
      end
  | Some b => fsStat b "/" = Ok x
  end.

(** *** Sequences of [Mount] and [Umount] calls

    The mount tables that can arise are those a sequence of calls builds,
    starting from [New]; a panic of [Umount] ends the run. *)
Inductive tableOp :=
  | DoMount (p : string) (b : Filesystem) (now : Time)
  | DoUmount (p : string) (now : Time).

Fixpoint runOps (ops : list tableOp) (r : Router) : outcome Router :=
  match ops with
  | [] => Returned r
  | DoMount p b now :: rest => runOps rest (Mount r p b now)
  | DoUmount p now :: rest =>
      match Umount r p now with
      | Returned r' => runOps rest r'
      | Panicked v => Panicked v
      end
  end.

End Router.

Arguments subRoute Filesystem : clear implicits.
Arguments Router Filesystem : clear implicits.
Arguments renameCallback Filesystem : clear implicits.
Arguments Call Filesystem : clear implicits.
Arguments tableOp Filesystem : clear implicits.
Arguments wrappedFile File : clear implicits.

(** ** Backends for the examples

    [Emptyfs] is the backend of package [emptyfs]: always empty and
    read-only.  [Stub n entries] is a test double numbered [n]: it opens and
    creates every path, lists [entries] in every directory, and its root is a
    directory named ["/"]. *)
Module Backends.

Inductive backend :=
  | Emptyfs (ctime : Time)
  | Stub (n : nat) (entries : list FileInfo).

#[global] Instance realInfo_eq_dec : EqDecision realInfo.
Proof. solve_decision. Defined.
#[global] Instance virtualDir_eq_dec : EqDecision virtualDir.
Proof. solve_decision. Defined.
#[global] Instance FileInfo_eq_dec : EqDecision FileInfo.
Proof. solve_decision. Defined.
#[global] Instance backend_eq_dec : EqDecision backend.
Proof. solve_decision. Defined.

(** [emptyfs.rootDir] *)
Definition rootDir (ctime : Time) : FileInfo :=
  Real (RealInfo "" 4096 (N.lor 365 ModeDir) ctime true).

Definition isRoot (p : string) : bool :=
  bool_decide (p = "/") || bool_decide (p = "") || bool_decide (p = ".").

#[global] Instance backend_billy : Billy backend string := {|
  fsCreate b p := match b with Emptyfs _ => Err ErrPermission | Stub _ _ => Ok p end;
  fsOpen b p := match b with Emptyfs _ => Err ErrPermission | Stub _ _ => Ok p end;
  fsOpenFile b p _ _ :=
    match b with Emptyfs _ => Err ErrPermission | Stub _ _ => Ok p end;
  fsRename b from to :=
    match b with Emptyfs _ => Some ErrPermission | Stub _ _ => None end;
  fsReadDir b p :=
    match b with
    | Emptyfs _ => if isRoot p then Ok [] else Err ErrNotExist
    | Stub _ entries => Ok entries
    end;
  fsStat b p :=
    match b with
    | Emptyfs ctime => if isRoot p then Ok (rootDir ctime) else Err ErrNotExist
    | Stub n _ =>
        if isRoot p then Ok (Real (RealInfo "/" 4096 (N.lor 493 ModeDir) n true))
        else Err ErrNotExist
    end;
  fsTempFile b dir pre :=
    match b with Emptyfs _ => Err ErrPermission | Stub _ _ => Ok (dir +:+ "/" +:+ pre) end;
  fileName f := f
|}.

(** Both are comparable: [emptyfs.Filesystem] is a struct holding a
    [time.Time], and the test double is used through a pointer. *)
#[global] Instance backend_comparable : Comparable backend := λ _ _, true.

Definition rootFS : backend := Stub 0 [].
Definition tmpFS : backend := Stub 1 [].

End Backends.

(** The routers of the examples. *)
Module Inputs.
Import Backends.

Definition mounted : Router backend := Mount (New rootFS 10) "/tmp" tmpFS 11.

(** A table with a node [X1] without backend, a node [X2] without backend
    over a real directory, and a backend at [X3] over a real file. *)
Definition entryX2 : FileInfo := Real (RealInfo "X2" 4096 (N.lor 493 ModeDir) 3 true).
Definition entryX3 : FileInfo := Real (RealInfo "X3" 12 420 4 false).
Definition entryY : FileInfo := Real (RealInfo "Y" 7 420 5 false).
Definition listedRoot : backend := Stub 0 [entryX2; entryX3; entryY].

Definition overlay : Router backend :=
  {| Router_routes :=
       mountLoop ["X3"] (Emptyfs 7) 13
         (mountLoop ["X2"; "deep"] tmpFS 12
            (mountLoop ["X1"; "deep"] tmpFS 11 (Router_routes (New listedRoot 10))));
     crossFilesystemRenameCallback := crossFilesystemRenameNotSupported |}.

End Inputs.

(** ** Package [emptyfs]

    The read-only file system that always remains empty: a value carries
    the time of its creation, nothing else. *)
Module emptyfs.

Record Filesystem := MkFilesystem { ctime : Time }.

(** [New()], at the time [now]. *)
Definition New (now : Time) : Filesystem := {| ctime := now |}.

(** [rootDir{ctime}] with its methods: the name is empty, the size 4096,
    the mode [0555 | os.ModeDir]. *)
Definition rootDir (ctime : Time) : FileInfo :=
  Real (RealInfo "" 4096 (N.lor 365 ModeDir) ctime true).

(** [case "/", "", "."] *)
Definition isRootPath (p : string) : bool :=
  bool_decide (p = "/") || bool_decide (p = "") || bool_decide (p = ".").

Definition Create {File} (f : Filesystem) (p : string) : result File :=
  Err ErrPermission.
Definition Open {File} (f : Filesystem) (p : string) : result File :=
  Err ErrPermission.
Definition OpenFile {File} (f : Filesystem) (p : string) (flag : Z) (mode : N)
    : result File :=
  Err ErrPermission.
Definition Rename (f : Filesystem) (from to : string) : option error :=
  Some ErrPermission.
Definition Remove (f : Filesystem) (p : string) : option error :=
  Some ErrPermission.
Definition ReadDir (f : Filesystem) (p : string) : result (list FileInfo) :=
  if isRootPath p then Ok [] else Err ErrNotExist.
Definition MkdirAll (f : Filesystem) (p : string) (perm : N) : option error :=
  Some ErrPermission.
Definition Symlink (f : Filesystem) (target link : string) : option error :=
  Some ErrPermission.
Definition Readlink (f : Filesystem) (p : string) : result string :=
  Err ErrNotExist.
Definition Chmod (f : Filesystem) (p : string) (mode : N) : option error :=
  Some ErrPermission.
Definition Chown (f : Filesystem) (p : string) (uid gid : Z) : option error :=
  Some ErrPermission.
Definition Lchown (f : Filesystem) (p : string) (uid gid : Z) : option error :=
  Some ErrPermission.
Definition Chtimes (f : Filesystem) (p : string) (atime mtime : Time)
    : option error :=
  Some ErrPermission.
Definition Chroot (f : Filesystem) (p : string) : result Filesystem :=
  Err ErrNotExist.
Definition TempFile {File} (f : Filesystem) (dir pre : string) : result File :=
  Err ErrPermission.
Definition Root (f : Filesystem) : string := "/".
Definition Stat (f : Filesystem) (p : string) : result FileInfo :=
  if isRootPath p then Ok (rootDir (ctime f)) else Err ErrNotExist.
Definition Lstat (f : Filesystem) (p : string) : result FileInfo := Stat f p.

(** The package as a backend of the router; it returns no file handle. *)
#[global] Instance emptyfs_billy : Billy Filesystem Empty_set := {|
  fsCreate := Create;
  fsOpen := Open;
  fsOpenFile := OpenFile;
  fsRename := Rename;
  fsReadDir := ReadDir;
  fsStat := Stat;
  fsTempFile := TempFile;
  fileName := λ f : Empty_set, match f return string with end
|}.

End emptyfs.

(** ** [Root] and [Capabilities]

    Two more answers of a backend: its root path, and the capabilities
    [billy.Capabilities] reports for it (for a [nil] backend too). *)
Class BillyRoot (Filesystem : Type) := {
  fsRoot : Filesystem → string;
  billyCapabilities : option Filesystem → N
}.

Section RootBackend.
Context {Filesystem : Type} `{!BillyRoot Filesystem}.

Definition Capabilities (r : Router Filesystem) : N :=
  let root := fs (Router_routes r) in
  billyCapabilities root.

Definition Root (r : Router Filesystem) : outcome string :=
  let root := fs (Router_routes r) in
  match root with
  | Some b => Returned (fsRoot b)
  | None => Panicked NilDereference
  end.

End RootBackend.

(** ** More backends and routers for the examples

    [Broken err] fails every call with [err]; [Holding entries] lists
    [entries] in every directory and opens every path; [Empty c] is the
    backend of package [emptyfs] made at the time [c]. *)
Module Doubles.

Inductive backend :=
  | Broken (err : error)
  | Holding (entries : list FileInfo)
  | Empty (c : Time).

#[global] Instance error_eq_dec : EqDecision error.
Proof. solve_decision. Defined.
#[global] Instance double_eq_dec : EqDecision backend.
Proof. solve_decision. Defined.

#[global] Instance double_billy : Billy backend string := {|
  fsCreate b p :=
    match b with
    | Broken err => Err err
    | Holding _ => Ok p
    | Empty c => emptyfs.Create (emptyfs.New c) p
    end;
  fsOpen b p :=
    match b with
    | Broken err => Err err
    | Holding _ => Ok p
    | Empty c => emptyfs.Open (emptyfs.New c) p
    end;
  fsOpenFile b p flag mode :=
    match b with
    | Broken err => Err err
    | Holding _ => Ok p
    | Empty c => emptyfs.OpenFile (emptyfs.New c) p flag mode
    end;
  fsRename b from to :=
    match b with
    | Broken err => Some err
    | Holding _ => None
    | Empty c => emptyfs.Rename (emptyfs.New c) from to
    end;
  fsReadDir b p :=
    match b with
    | Broken err => Err err
    | Holding entries => Ok entries
    | Empty c => emptyfs.ReadDir (emptyfs.New c) p
    end;
  fsStat b p :=
    match b with
    | Broken err => Err err
    | Holding _ => Ok (Real (RealInfo "/" 4096 (N.lor 493 ModeDir) 0 true))
    | Empty c => emptyfs.Stat (emptyfs.New c) p
    end;
  fsTempFile b dir pre :=
    match b with
    | Broken err => Err err
    | Holding _ => Ok (dir +:+ "/" +:+ pre)
    | Empty c => emptyfs.TempFile (emptyfs.New c) dir pre
    end;
  fileName f := f
|}.

(** None of the three has a [Capabilities] method: [billy.Capabilities]
    reports the default set for each, as it does for [nil]. *)
#[global] Instance double_root : BillyRoot backend := {|
  fsRoot b := match b with Empty c => emptyfs.Root (emptyfs.New c) | _ => "/srv" end;
  billyCapabilities b := 63%N
|}.

(** [Holding] is a struct with a slice field, used as a value: two of them
    cannot be compared.  The others can. *)
#[global] Instance double_comparable : Comparable backend := λ x y,
  match x, y with
  | Holding _, Holding _ => false
  | _, _ => true
  end.

Definition table (root : backend) (sr : subRoute backend) : Router backend :=
  {| Router_routes := SubRoute (Some root) 10 (routes sr);
     crossFilesystemRenameCallback := crossFilesystemRenameNotSupported |}.

(** The table with a backend at [var/empty] and one at [tmp]. *)
Definition twoMounts : subRoute backend :=
  mountLoop ["tmp"] (Holding []) 12
    (mountLoop ["var"; "empty"] (Empty 3) 11 (SubRoute None 0 ∅)).

Definition fileA : FileInfo := Real (RealInfo "a" 1 420 1 false).
Definition fileA' : FileInfo := Real (RealInfo "a" 2 420 2 false).
Definition dirTmp : FileInfo := Real (RealInfo "tmp" 4096 (N.lor 493 ModeDir) 3 true).

(** What [Stat("/")] of a [Holding] backend returns. *)
Definition holdingRoot : FileInfo := Real (RealInfo "/" 4096 (N.lor 493 ModeDir) 0 true).

(** The two mounts over a root that lists two files named [a] and a
    directory named [tmp], over an [emptyfs] root, and over a broken root. *)
Definition listed : Router backend := table (Holding [fileA; dirTmp; fileA']) twoMounts.
Definition overEmpty : Router backend := table (Empty 3) twoMounts.
Definition overBroken : Router backend := table (Broken (BackendError "io")) twoMounts.

(** A table whose node at the empty segment has no backend and one child. *)
Definition deep : Router backend :=
  table (Holding []) (mountLoop [""; "x"] (Empty 3) 11 (SubRoute None 0 ∅)).

Definition plain : Router backend := New (Holding []) 10.

End Doubles.

(** * Properties *)

(** ** Path normalization *)

(** The library functions on the test cases of their documentation. *)
Example Clean_ex1 : Go.Clean "a//c/./b/.." = "a/c". Proof. reflexivity. Qed.
Example Clean_ex2 : Go.Clean "/../a/b/../././/c" = "/a/c". Proof. reflexivity. Qed.
Example Clean_ex3 : Go.Clean "abc/def/../../.." = "..". Proof. reflexivity. Qed.
Example Clean_ex4 : Go.Clean "../../abc/" = "../../abc". Proof. reflexivity. Qed.
Example Clean_ex5 : Go.Clean "" = "." ∧ Go.Clean "/" = "/" ∧ Go.Clean "a/.." = ".".
Proof. done. Qed.
Example Split_ex : Go.Split "/tmp//x" = [""; "tmp"; ""; "x"] ∧ Go.Split "" = [""].
Proof. done. Qed.
Example TrimRight_ex : Go.TrimRight "/a//" = "/a" ∧ Go.TrimRight "/" = "".
Proof. done. Qed.

Lemma Split_nonempty (s : string) : Go.Split s ≠ [].
Proof.
  destruct s as [|c s]; simpl; [done|].
  destruct (Go.isSlash c); [done|]. by destruct (Go.Split s).
Qed.

Lemma cleanPath_cases (p : string) : cleanPath p = "." ∨ cleanPath p = "".
Proof.
  unfold cleanPath. case_bool_decide as Hdot; [left|right]; done.
Qed.


(** C2 (the code departs from the claim).  [cleanPath] returns ["."] for a
    path that cleans to ["."] and the empty string for every other path: the
    two results of the function are exchanged.  For ["/tmp"] the rule of the
    claim gives ["/tmp"] and the code gives [""]; for ["."] the rule gives
    [""] and the code gives ["."]. *)
Theorem cleanPath_exchanges_results :
  (∀ p, cleanPath p = "." ∨ cleanPath p = "")
  ∧ cleanPath "/tmp" = "" ∧ specCleanPath "/tmp" = "/tmp"
  ∧ cleanPath "." = "." ∧ specCleanPath "." = "".
Proof. split; [apply cleanPath_cases | done]. Qed.

(** ** Resolution *)

Section Resolution.
Context {Filesystem : Type} `{!EqDecision Filesystem}.
Implicit Types (r : Router Filesystem) (sr : subRoute Filesystem).

Lemma resolve_backend_root r p :
  (resolvePathWithMount r p).2 = fs (Router_routes r).
Proof. done. Qed.

Lemma mountLoop_fs seg rest b now sr :
  fs (mountLoop (seg :: rest) b now sr) = fs sr.
Proof. done. Qed.

Lemma umountLoop_fs seg rest now sr sr' running :
  umountLoop (seg :: rest) now sr = Some (sr', running) → fs sr' = fs sr.
Proof.
  simpl. destruct (routes sr !! seg) as [s|]; [|done].
  destruct (umountLoop rest now s) as [[s' run]|]; [|done].
  destruct (run && negb (inUse s')); by intros [= <- <-].
Qed.

Lemma Mount_root_fs r p b now :
  fs (Router_routes (Mount r p b now)) = fs (Router_routes r).
Proof.
  unfold Mount; simpl. destruct (Go.Split (cleanPath p)) eqn:Hsp.
  - by apply Split_nonempty in Hsp.
  - apply mountLoop_fs.
Qed.

Lemma Umount_root_fs r p now r' :
  Umount r p now = Returned r' → fs (Router_routes r') = fs (Router_routes r).
Proof.
  unfold Umount.
  destruct (umountLoop _ _ _) as [[sr' run]|] eqn:Hloop; [|done].
  intros [= <-]; simpl.
  destruct (Go.Split (cleanPath p)) eqn:Hsp.
  - by apply Split_nonempty in Hsp.
  - by eapply umountLoop_fs.
Qed.

Lemma runOps_root_fs ops r r' :
  runOps ops r = Returned r' → fs (Router_routes r') = fs (Router_routes r).
Proof.
  revert r. induction ops as [|[p b now|p now] ops IH]; intros r; simpl.
  - by intros [= <-].
  - intros Hrun. rewrite (IH _ Hrun). apply Mount_root_fs.
  - destruct (Umount r p now) as [r1|] eqn:Hum; [|done].
    intros Hrun. rewrite (IH _ Hrun). by eapply Umount_root_fs.
Qed.

End Resolution.

(** C1 (the code departs from the claim).  The backend that
    [resolvePathWithMount] returns is the one of the root, for every router
    and path: its loop never assigns [mount].  After [Mount("/tmp", tmpFS)]
    the table binds [tmpFS] at the node of the segments of ["/tmp/x"], and
    longest-prefix resolution gives [tmpFS]; [resolvePathWithMount] gives
    the root backend. *)
Theorem resolve_returns_root_backend :
  (∀ (r : Router Backends.backend) p,
      (resolvePathWithMount r p).2 = fs (Router_routes r))
  ∧ let r := Mount (New Backends.rootFS 10) "/tmp" Backends.tmpFS 11 in
    boundAt (Go.Split (cleanPath "/tmp/x")) (Router_routes r) = Some Backends.tmpFS
    ∧ specResolve r "/tmp/x" = ("", "", Some Backends.tmpFS)
    ∧ resolvePathWithMount r "/tmp/x" = ("", "", Some Backends.rootFS).
Proof. split; [apply resolve_backend_root | done]. Qed.

(** The index the loop records is that of the segment, not the number of
    segments matched: with a backend at [a/b], the loop over [a/b/x] ends
    with [lastMount = 1]. *)
Example resolveLoop_index :
  let sr := mountLoop ["a"; "b"] Backends.tmpFS 11 (Router_routes (New Backends.rootFS 10)) in
  resolveLoop ["a"; "b"; "x"] 0 sr 0 = 1
  ∧ deepestBound ["a"; "b"; "x"] sr 3 = 2.
Proof. done. Qed.

(** C3 (the code departs from the claim).  [Mount("A/B/C", tmpFS)] on the
    initial table makes one node, keyed by the empty segment and bound to
    [tmpFS]; there is no node at [A], [A/B] or [A/B/C].  [Umount("A/B/C")]
    then removes that node, which leaves the root alone. *)
Theorem Mount_ABC_makes_one_node :
  let r := Mount (New Backends.rootFS 10) "A/B/C" Backends.tmpFS 11 in
  Router_routes r
    = SubRoute (Some Backends.rootFS) 10 {[ "" := SubRoute (Some Backends.tmpFS) 11 ∅ ]}
  ∧ nodeAt ["A"] (Router_routes r) = None
  ∧ nodeAt ["A"; "B"] (Router_routes r) = None
  ∧ nodeAt ["A"; "B"; "C"] (Router_routes r) = None
  ∧ Umount r "A/B/C" 12 = Returned (New Backends.rootFS 12).
Proof. done. Qed.

(** The loops of [Mount] and [Umount] on the segments [A], [B], [C]: the
    nodes at [A] and [A/B] are made without backend, [tmpFS] is bound at
    [A/B/C], and the unmount takes all three away. *)
Example mountLoop_ABC :
  let sr := mountLoop ["A"; "B"; "C"] Backends.tmpFS 11
              (Router_routes (New Backends.rootFS 10)) in
  (is_Some (nodeAt ["A"] sr) ∧ boundAt ["A"] sr = None)
  ∧ (is_Some (nodeAt ["A"; "B"] sr) ∧ boundAt ["A"; "B"] sr = None)
  ∧ boundAt ["A"; "B"; "C"] sr = Some Backends.tmpFS
  ∧ umountLoop ["A"; "B"; "C"] 12 sr = Some (Router_routes (New Backends.rootFS 12), true).
Proof. repeat split; by eauto. Qed.

(** [Umount] panics exactly when a segment of the path has no node. *)
Lemma umountLoop_None {Filesystem} (sp : list string) now (sr : subRoute Filesystem) :
  umountLoop sp now sr = None ↔ nodeAt sp sr = None.
Proof.
  revert sr. induction sp as [|seg rest IH]; intros sr; simpl; [done|].
  destruct (routes sr !! seg) as [s|]; [|done].
  rewrite <- IH. destruct (umountLoop rest now s) as [[s' run]|]; [|done].
  by destruct (run && negb (inUse s')).
Qed.

Lemma Umount_panics_iff {Filesystem} (r : Router Filesystem) p now :
  (∃ v, Umount r p now = Panicked v)
  ↔ nodeAt (Go.Split (cleanPath p)) (Router_routes r) = None.
Proof.
  rewrite <- (umountLoop_None _ now). unfold Umount.
  destruct (umountLoop _ _ _) as [[sr' run]|]; split; try done.
  - by intros [v ?].
  - eauto.
Qed.

(** C7 (the code departs from the claim).  [Umount] panics when, and only
    when, a segment of the normalized path has no node in the table.  After
    [Mount("/a", tmpFS)], [Umount("/b")] returns, and takes the mount of
    ["/a"] away, although no backend was mounted at ["/b"]. *)
Theorem Umount_unmounted_path_returns :
  (∀ (r : Router Backends.backend) p now,
      (∃ v, Umount r p now = Panicked v)
      ↔ nodeAt (Go.Split (cleanPath p)) (Router_routes r) = None)
  ∧ let r := Mount (New Backends.rootFS 10) "/a" Backends.tmpFS 11 in
    Umount r "/b" 12 = Returned (New Backends.rootFS 12).
Proof. split; [apply Umount_panics_iff | done]. Qed.

(** A node that [Mount] made on the way to a deeper mount has no backend,
    and the loops of [Umount] accept it: the table is left as it is. *)
Example umountLoop_intermediate_node :
  let sr := mountLoop ["A"; "B"; "C"] Backends.tmpFS 11 (Router_routes (New Backends.rootFS 10)) in
  boundAt ["A"; "B"] sr = None ∧ umountLoop ["A"; "B"] 12 sr = Some (sr, false).
Proof. done. Qed.

(** ** The facade *)

Section Facade.
Context {Filesystem File : Type} `{!EqDecision Filesystem}.
Context `{!Billy Filesystem File} `{!Comparable Filesystem}.
Implicit Types (r : Router Filesystem) (p : string).

Lemma wrap_returns (recv : option Filesystem) c (answer : Filesystem → result File)
    p calls (f : wrappedFile File) :
  (res ← invoke recv c answer;
   match res with
   | Err err => mret (Err err)
   | Ok fh => mret (Ok (WrappedFile fh p))
   end) = (calls, Returned (Ok f)) →
  ∃ b, recv = Some b ∧ answer b = Ok (wrapped f) ∧ originalName f = p.
Proof.
  destruct recv as [b|]; [|done]. cbn.
  destruct (answer b) as [fh|err] eqn:Hans; [|done].
  intros [= _ <-]. eauto.
Qed.

(** C8.  When [Open], [Create] or [OpenFile] succeeds on a path [p], the
    file handle reports [p] as its name, whatever the mount table is; what
    it wraps is the handle the resolved backend returned for the
    backend-relative path. *)
Theorem opened_file_reports_original_name r p flag mode calls f :
  (Open r p = (calls, Returned (Ok f)) →
     wrappedFile_Name f = p
     ∧ ∃ b, (resolvePath r p).2 = Some b
            ∧ fsOpen b (resolvePath r p).1 = Ok (wrapped f))
  ∧ (Create r p = (calls, Returned (Ok f)) →
     wrappedFile_Name f = p
     ∧ ∃ b, (resolvePath r p).2 = Some b
            ∧ fsCreate b (resolvePath r p).1 = Ok (wrapped f))
  ∧ (OpenFile r p flag mode = (calls, Returned (Ok f)) →
     wrappedFile_Name f = p
     ∧ ∃ b, (resolvePath r p).2 = Some b
            ∧ fsOpenFile b (resolvePath r p).1 flag mode = Ok (wrapped f)).
Proof.
  unfold Open, Create, OpenFile, wrappedFile_Name.
  destruct (resolvePath r p) as [sub recv]. simpl.
  repeat split; apply wrap_returns in H as (b & ? & ? & ?); eauto.
Qed.

(** C10.  On a router that a sequence of [Mount] and [Umount] calls built
    from [New(root)], [TempFile("", pre)] is one call to the root backend,
    with the empty directory passed on as it is; for every other [dir] the
    call goes to the backend [resolvePath] gives, with the path it gives. *)
Theorem TempFile_delegation root t0 ops r pre :
  runOps ops (New root t0) = Returned r →
  TempFile r "" pre = ([CallTempFile root "" pre], Returned (fsTempFile root "" pre))
  ∧ ∀ dir, dir ≠ "" →
      TempFile r dir pre
      = invoke (resolvePath r dir).2
          (λ b, CallTempFile b (resolvePath r dir).1 pre)
          (λ b, fsTempFile b (resolvePath r dir).1 pre).
Proof.
  intros Hrun. split.
  - unfold TempFile. rewrite bool_decide_eq_true_2 by done.
    by rewrite (runOps_root_fs _ _ _ Hrun).
  - intros dir Hdir. unfold TempFile. rewrite bool_decide_eq_false_2 by done.
    by destruct (resolvePath r dir).
Qed.

Lemma invoke_no_callback {A} recv b1 b2 (answer : Filesystem → A) :
  ¬ invokesCallback (invoke recv (λ b, CallRename b b1 b2) answer).
Proof.
  intros (a & b & c & d & Hin). destruct recv; simpl in Hin.
  - by apply list_elem_of_singleton in Hin.
  - by apply not_elem_of_nil in Hin.
Qed.

(** [a == b] returns whether the two are the same, or panics; a backend is
    compared with itself when the two resolutions agree. *)
Lemma interfaceEq_returns (a b : option Filesystem) same :
  interfaceEq a b = ([], Returned same) → same = bool_decide (a = b).
Proof.
  destruct a as [x|], b as [y|]; simpl; try by intros [= <-].
  destruct (comparable x y); [|done]. intros [= <-].
  apply bool_decide_ext. split; [by intros -> | by intros [= ->]].
Qed.

Lemma interfaceEq_outcome (a b : option Filesystem) :
  interfaceEq a b = ([], Returned (bool_decide (a = b)))
  ∨ (interfaceEq a b = ([], Panicked Uncomparable)
     ∧ ∃ x y, a = Some x ∧ b = Some y ∧ comparable x y = false).
Proof.
  destruct a as [x|], b as [y|]; simpl; try by left.
  destruct (comparable x y) eqn:Hc; [left | right; eauto 6].
  unfold mret, M_ret. do 2 f_equal. apply bool_decide_ext.
  split; [by intros -> | by intros [= ->]].
Qed.

(** The body of [Rename] on two resolutions whose backends Go can compare:
    the same backend and mount point give one call to that backend, without
    the callback; anything else gives one call to the callback, with both
    backends and both backend-relative paths, whose answer is the result.
    Where the comparison panics, neither is called. *)
Lemma renameResolved_dispatch (callback : renameCallback Filesystem)
    fromSub fromMount fromFS toSub toMount toFS :
  interfaceEq fromFS toFS = ([], Returned (bool_decide (fromFS = toFS))) →
  (fromFS = toFS ∧ fromMount = toMount →
      renameResolved callback (fromSub, fromMount, fromFS) (toSub, toMount, toFS)
      = invoke fromFS (λ b, CallRename b fromSub toSub) (λ b, fsRename b fromSub toSub)
      ∧ ¬ invokesCallback
            (renameResolved callback (fromSub, fromMount, fromFS) (toSub, toMount, toFS)))
  ∧ (¬ (fromFS = toFS ∧ fromMount = toMount) →
      renameResolved callback (fromSub, fromMount, fromFS) (toSub, toMount, toFS)
      = ([CallCrossRename fromFS toFS fromSub toSub],
         Returned (callback fromFS toFS fromSub toSub))).
Proof.
  intros Heq. unfold renameResolved. rewrite Heq. cbn. split.
  - intros [-> ->]. rewrite !bool_decide_eq_true_2 by done. cbn.
    pose proof (invoke_no_callback toFS fromSub toSub (λ b, fsRename b fromSub toSub))
      as Hno.
    by destruct (invoke toFS _ _).
  - intros Hne.
    destruct (bool_decide (fromFS = toFS)) eqn:Hfs; [|done].
    destruct (bool_decide (fromMount = toMount)) eqn:Hmt; [|done].
    apply bool_decide_eq_true in Hfs, Hmt. by destruct Hne.
Qed.

Lemma renameResolved_panics (callback : renameCallback Filesystem)
    fromSub fromMount fromFS toSub toMount toFS v :
  interfaceEq fromFS toFS = ([], Panicked v) →
  renameResolved callback (fromSub, fromMount, fromFS) (toSub, toMount, toFS)
  = ([], Panicked v).
Proof. intros Heq. unfold renameResolved. by rewrite Heq. Qed.




End Facade.


(** A root backend that Go cannot compare: every [Rename] panics. *)
Example Rename_uncomparable_root :
  Rename (File:=string) Doubles.plain "/a" "/b" = ([], Panicked Uncomparable).
Proof. done. Qed.


(** ** The mount table under [Mount] and [Umount] *)

Section MountTable.
Context {Filesystem : Type} `{!EqDecision Filesystem}.
Implicit Types (r : Router Filesystem) (sr s : subRoute Filesystem).
Implicit Types (sp q : list string) (seg : string).

(** *** What [Mount] leaves alone *)

Lemma boundAt_cons seg q sr :
  boundAt (seg :: q) sr
  = match routes sr !! seg with Some s => boundAt q s | None => None end.
Proof. unfold boundAt; simpl. by destruct (routes sr !! seg). Qed.

Lemma boundAt_touch q sr now :
  boundAt q (SubRoute (fs sr) now (routes sr)) = boundAt q sr.
Proof. by destruct q. Qed.

Lemma boundAt_newSubRoute q now :
  boundAt q (SubRoute (fs newSubRoute) now (routes (newSubRoute (Filesystem:=Filesystem))))
  = None.
Proof. destruct q; [done|]. by rewrite boundAt_cons. Qed.

Lemma boundAt_mountLoop_ne sp b now sr q :
  q ≠ sp → boundAt q (mountLoop sp b now sr) = boundAt q sr.
Proof.
  revert sr q. induction sp as [|seg rest IH]; intros sr q Hne.
  - destruct q; [done|]. by rewrite !boundAt_cons.
  - destruct q as [|seg' q]; [done|]. rewrite !boundAt_cons. simpl.
    destruct (decide (seg = seg')) as [<-|Hseg].
    + rewrite lookup_insert_eq. rewrite IH by congruence.
      destruct (routes sr !! seg) as [s|].
      * apply boundAt_touch.
      * apply boundAt_newSubRoute.
    + by rewrite lookup_insert_ne.
Qed.

Lemma boundAt_mountLoop_eq sp b now sr :
  boundAt sp (mountLoop sp b now sr) = Some b.
Proof.
  revert sr. induction sp as [|seg rest IH]; intros sr; [done|].
  rewrite boundAt_cons. simpl. by rewrite lookup_insert_eq.
Qed.

(** Nodes that are not on the way to the mounted path stay as they are:
    [Mount] makes or touches the nodes of the prefixes of the path only. *)
Lemma nodeAt_touch q sr o now :
  q ≠ [] → nodeAt q (SubRoute o now (routes sr)) = nodeAt q sr.
Proof. by destruct q. Qed.

Lemma nodeAt_mountLoop_off sp b now sr q :
  ¬ q `prefix_of` sp → nodeAt q (mountLoop sp b now sr) = nodeAt q sr.
Proof.
  revert sr q. induction sp as [|seg rest IH]; intros sr q Hq.
  - destruct q; [|done]. destruct Hq. apply prefix_nil.
  - destruct q as [|seg' q]; [destruct Hq; apply prefix_nil|]. simpl.
    destruct (decide (seg = seg')) as [<-|Hseg].
    + assert (¬ q `prefix_of` rest) as Hq' by (intros H; by apply Hq, prefix_cons).
      assert (q ≠ []) as Hnil by (intros ->; apply Hq', prefix_nil).
      rewrite lookup_insert_eq, IH by done.
      destruct (routes sr !! seg) as [s|]; rewrite nodeAt_touch by done; [done|].
      destruct q; [done|]. simpl. by rewrite lookup_empty.
    + by rewrite lookup_insert_ne.
Qed.

(** The longest-prefix match is fixed by what is bound at the prefixes. *)
Lemma deepestBound_le sp sr k : (deepestBound sp sr k ≤ k)%nat.
Proof.
  induction k as [|k IH]; simpl; [done|]. case_bool_decide; lia.
Qed.

Lemma deepestBound_bound sp sr k :
  deepestBound sp sr k ≠ 0 →
  boundAt (take (deepestBound sp sr k) sp) sr ≠ None.
Proof.
  induction k as [|k IH]; simpl; [done|].
  by destruct (bool_decide_reflect (boundAt (take (S k) sp) sr ≠ None)).
Qed.

Lemma deepestBound_above sp sr k j :
  (deepestBound sp sr k < j ≤ k)%nat → boundAt (take j sp) sr = None.
Proof.
  induction k as [|k IH]; simpl; [lia|].
  destruct (bool_decide_reflect (boundAt (take (S k) sp) sr ≠ None)) as [Hk|Hk];
    [lia|].
  intros [Hlt Hle]. destruct (decide (j = S k)) as [Heq|Hne].
  - subst j. destruct (boundAt (take (S k) sp) sr); [|done]. by destruct Hk.
  - apply IH. lia.
Qed.

Lemma deepestBound_unique sp sr k d :
  (d ≤ k)%nat →
  (d ≠ 0 → boundAt (take d sp) sr ≠ None) →
  (∀ j, (d < j ≤ k)%nat → boundAt (take j sp) sr = None) →
  deepestBound sp sr k = d.
Proof.
  intros Hle Hbound. induction k as [|k IH]; intros Habove; simpl; [lia|].
  destruct (bool_decide_reflect (boundAt (take (S k) sp) sr ≠ None)) as [Hk|Hk].
  - destruct (decide (d = S k)) as [Heq|Hne]; [done|].
    destruct Hk. apply Habove. lia.
  - assert (d ≠ S k) as Hne.
    { intros Heq. subst d. apply Hk. by apply Hbound. }
    apply IH; [lia|]. intros j Hj. apply Habove. lia.
Qed.

Lemma deepestBound_mountLoop sp b now sr sq :
  deepestBoundPath (mountLoop sp b now sr) sq ≠ sp →
  deepestBound sq sr (length sq) = deepestBound sq (mountLoop sp b now sr) (length sq).
Proof.
  unfold deepestBoundPath. set (sr' := mountLoop sp b now sr).
  set (d := deepestBound sq sr' (length sq)). intros Hd.
  apply deepestBound_unique.
  - apply deepestBound_le.
  - intros Hd0. unfold sr'. rewrite <- (boundAt_mountLoop_ne sp b now) by done.
    by apply deepestBound_bound.
  - intros j Hj.
    assert (boundAt (take j sq) sr' = None) as Hnone
      by by eapply deepestBound_above.
    destruct (decide (take j sq = sp)) as [Heq|Hne].
    + unfold sr' in Hnone. by rewrite Heq, boundAt_mountLoop_eq in Hnone.
    + unfold sr' in Hnone. by rewrite boundAt_mountLoop_ne in Hnone.
Qed.

(** C9.  [Mount(p, b)] binds [b] at the segments of the normalized [p],
    leaves the binding at every other path of the table as it was, and
    leaves every node as it was that is not at a prefix of that path.  So
    for a path whose deepest bound prefix, after the call, is not the
    mounted path, resolution gives the same before and after the call: the
    backend [resolvePathWithMount] returns is the same, and so is the
    longest-prefix match of the path in the table. *)
Theorem Mount_frame r p b now :
  let sp := Go.Split (cleanPath p) in
  let r' := Mount r p b now in
  boundAt sp (Router_routes r') = Some b
  ∧ (∀ q, q ≠ sp → boundAt q (Router_routes r') = boundAt q (Router_routes r))
  ∧ (∀ q, ¬ q `prefix_of` sp →
      nodeAt q (Router_routes r') = nodeAt q (Router_routes r))
  ∧ (∀ path,
      deepestBoundPath (Router_routes r') (Go.Split (cleanPath path)) ≠ sp →
      (resolvePathWithMount r' path).2 = (resolvePathWithMount r path).2
      ∧ specResolve r' path = specResolve r path).
Proof.
  cbv zeta. split; [apply boundAt_mountLoop_eq|]. split; [|split].
  - intros q Hq. by apply boundAt_mountLoop_ne.
  - intros q Hq. by apply nodeAt_mountLoop_off.
  - intros path Hpath. split.
    + rewrite !resolve_backend_root. apply Mount_root_fs.
    + unfold specResolve. simpl in *.
      rewrite <- (deepestBound_mountLoop _ _ _ _ _ Hpath).
      rewrite boundAt_mountLoop_ne; [done|].
      unfold deepestBoundPath in Hpath.
      by rewrite <- (deepestBound_mountLoop _ _ _ _ _ Hpath) in Hpath.
Qed.

(** The backend [resolvePathWithMount] returns does not change for any
    path. *)
Lemma Mount_resolve_backend r p b now path :
  (resolvePathWithMount (Mount r p b now) path).2 = (resolvePathWithMount r path).2.
Proof. rewrite !resolve_backend_root. apply Mount_root_fs. Qed.

(** *** [Mount] and then [Umount] *)

(** On a path below a node without children, [Umount] takes away what
    [Mount] made, node by node, and its second loop runs to the end. *)
Lemma umountLoop_mountLoop_chain rest b now now' s :
  routes s = ∅ →
  ∃ s', umountLoop rest now' (mountLoop rest b now s) = Some (s', true)
        ∧ routes s' = ∅
        ∧ fs s' = match rest with [] => None | _ => fs s end.
Proof.
  revert s. induction rest as [|seg rest IH]; intros s Hs; simpl.
  - eauto.
  - rewrite Hs, lookup_empty, lookup_insert_eq.
    destruct (IH (SubRoute (fs newSubRoute) now (routes newSubRoute)))
      as (s' & -> & Hroutes & Hfs); [done|].
    assert (inUse s' = false) as ->.
    { unfold inUse. rewrite Hroutes, map_size_empty, Hfs. by destruct rest. }
    simpl. eexists. split; [done|]. simpl. split; [|done].
    by rewrite delete_insert_eq, delete_empty.
Qed.

(** A mount at a new path and the unmount of that path leave the table as
    it was, but for the time stamp of the node where the new path left the
    table. *)
Lemma umountLoop_mountLoop_new seg rest b now now' sr :
  routes sr !! seg = None →
  umountLoop (seg :: rest) now' (mountLoop (seg :: rest) b now sr)
  = Some (SubRoute (fs sr) now' (routes sr), true).
Proof.
  intros Hnew. simpl. rewrite Hnew, lookup_insert_eq.
  destruct (umountLoop_mountLoop_chain rest b now now'
              (SubRoute (fs newSubRoute) now (routes newSubRoute)))
    as (s' & -> & Hroutes & Hfs); [done|].
  assert (inUse s' = false) as ->.
  { unfold inUse. rewrite Hroutes, map_size_empty, Hfs. by destruct rest. }
  simpl. by rewrite delete_insert_eq, delete_id.
Qed.

(** On the table of [New], for every path. *)
Lemma Umount_Mount_New (root b : Filesystem) t0 p now now' :
  Umount (Mount (New root t0) p b now) p now' = Returned (New root now').
Proof.
  unfold Umount, Mount. simpl.
  destruct (Go.Split (cleanPath p)) as [|seg rest] eqn:Hsp.
  - by apply Split_nonempty in Hsp.
  - rewrite umountLoop_mountLoop_new by done. done.
Qed.

(** *** No garbage in the tree *)

Lemma garbageFree_children sr seg s :
  garbageFree sr → routes sr !! seg = Some s → live s ∧ garbageFree s.
Proof. intros [sr' Hlive Hgf]; eauto. Qed.

Lemma garbageFree_intro sr :
  (∀ seg s, routes sr !! seg = Some s → live s ∧ garbageFree s) →
  garbageFree sr.
Proof. intros H. constructor; intros seg s Hs; by destruct (H seg s Hs). Qed.

Lemma garbageFree_touch sr o now :
  garbageFree sr → garbageFree (SubRoute o now (routes sr)).
Proof. intros [sr' Hlive Hgf]. by constructor. Qed.

Lemma garbageFree_newSubRoute : garbageFree (newSubRoute (Filesystem:=Filesystem)).
Proof.
  apply garbageFree_intro. unfold newSubRoute; simpl.
  intros seg s. by rewrite lookup_empty.
Qed.

Lemma live_has_bound sr : live sr ↔ ∃ q b, boundAt q sr = Some b.
Proof.
  split.
  - induction 1 as [sr Hfs | sr seg s Hs _ (q & b & Hq)].
    + destruct (fs sr) as [b|] eqn:Hb; [|done]. by exists [], b.
    + exists (seg :: q), b. by rewrite boundAt_cons, Hs.
  - intros (q & b & Hq). revert sr Hq.
    induction q as [|seg q IH]; intros sr Hq.
    + apply live_bound. unfold boundAt in Hq; simpl in Hq. by rewrite Hq.
    + rewrite boundAt_cons in Hq.
      destruct (routes sr !! seg) as [s|] eqn:Hs; [|done].
      eapply live_child; eauto.
Qed.

Lemma live_inUse sr : live sr → inUse sr = true.
Proof.
  unfold inUse. intros [sr' Hfs | sr' seg s Hs _].
  - rewrite (bool_decide_eq_true_2 (fs sr' ≠ None)) by done. apply orb_true_r.
  - rewrite bool_decide_eq_true_2; [done|].
    apply Nat.neq_0_lt_0, map_size_non_empty_iff.
    intros Hempty. by rewrite Hempty, lookup_empty in Hs.
Qed.

Lemma inUse_live sr : garbageFree sr → inUse sr = true → live sr.
Proof.
  unfold inUse. intros Hgf [Hsize | Hfs]%orb_true_iff.
  - apply bool_decide_eq_true in Hsize.
    destruct (map_choose (routes sr)) as (seg & s & Hs).
    { apply map_size_non_empty_iff. lia. }
    eapply live_child; [done|]. by eapply garbageFree_children.
  - apply bool_decide_eq_true in Hfs. by apply live_bound.
Qed.

Lemma mountLoop_garbageFree sp b now sr :
  garbageFree sr →
  garbageFree (mountLoop sp b now sr) ∧ live (mountLoop sp b now sr).
Proof.
  revert sr. induction sp as [|seg rest IH]; intros sr Hgf; simpl.
  - split; [by apply garbageFree_touch | by apply live_bound].
  - set (s := SubRoute _ now _).
    assert (garbageFree s) as Hs.
    { apply garbageFree_touch. destruct (routes sr !! seg) as [s0|] eqn:Hs0.
      - by eapply garbageFree_children.
      - apply garbageFree_newSubRoute. }
    destruct (IH s Hs) as [Hgf' Hlive'].
    split.
    + apply garbageFree_intro; simpl. intros seg' s'.
      destruct (decide (seg = seg')) as [<-|Hne].
      * rewrite lookup_insert_eq. by intros [= <-].
      * rewrite lookup_insert_ne by done. by apply garbageFree_children.
    + eapply live_child; [|done]. simpl. apply lookup_insert_eq.
Qed.

Lemma umountLoop_garbageFree sp now sr sr' running :
  garbageFree sr → umountLoop sp now sr = Some (sr', running) →
  garbageFree sr' ∧ (running = false → inUse sr' = true).
Proof.
  revert sr sr' running. induction sp as [|seg rest IH]; intros sr sr' run Hgf; simpl.
  - intros [= <- <-]. split; [by apply garbageFree_touch | done].
  - destruct (routes sr !! seg) as [s|] eqn:Hs; [|done].
    destruct (umountLoop rest now s) as [[s' run']|] eqn:Hloop; [|done].
    destruct (garbageFree_children _ _ _ Hgf Hs) as [_ Hgfs].
    destruct (IH _ _ _ Hgfs Hloop) as [Hgf' Hrun'].
    destruct (run' && negb (inUse s')) eqn:Hprune; intros [= <- <-].
    + split; [|done]. apply garbageFree_intro; simpl. intros seg' s0.
      destruct (decide (seg = seg')) as [<-|Hne].
      * by rewrite lookup_delete_eq.
      * rewrite lookup_delete_ne by done. by apply garbageFree_children.
    + assert (inUse s' = true) as Huse.
      { destruct run'; [|by apply Hrun'].
        simpl in Hprune. by apply negb_false_iff in Hprune. }
      split.
      * apply garbageFree_intro; simpl. intros seg' s0.
        destruct (decide (seg = seg')) as [<-|Hne].
        -- rewrite lookup_insert_eq. intros [= <-].
           split; [by apply inUse_live | done].
        -- rewrite lookup_insert_ne by done. by apply garbageFree_children.
      * intros _. apply live_inUse. eapply live_child.
        -- simpl. apply lookup_insert_eq.
        -- by apply inUse_live.
Qed.

Lemma New_garbageFree (root : Filesystem) now :
  garbageFree (Router_routes (New root now)).
Proof. apply garbageFree_intro; simpl. intros seg s. by rewrite lookup_empty. Qed.

Lemma runOps_garbageFree ops r r' :
  garbageFree (Router_routes r) → runOps ops r = Returned r' →
  garbageFree (Router_routes r').
Proof.
  revert r. induction ops as [|[p b now|p now] ops IH]; intros r Hgf; simpl.
  - by intros [= <-].
  - apply IH. simpl. by apply mountLoop_garbageFree.
  - unfold Umount.
    destruct (umountLoop _ _ _) as [[sr' run]|] eqn:Hloop; [|done].
    apply IH. simpl. by eapply umountLoop_garbageFree.
Qed.

Lemma garbageFree_nodeAt q sr n :
  garbageFree sr → q ≠ [] → nodeAt q sr = Some n → live n.
Proof.
  revert sr. induction q as [|seg q IH]; intros sr Hgf Hq; [done|]. simpl.
  destruct (routes sr !! seg) as [s|] eqn:Hs; [|done].
  destruct (garbageFree_children _ _ _ Hgf Hs) as [Hlive Hgfs].
  destruct q as [|seg' q]; [by intros [= <-]|].
  by apply IH.
Qed.

Lemma nodeCount_child sr seg s :
  routes sr !! seg = Some s → nodeCount s < nodeCount sr.
Proof.
  intros Hs. destruct sr as [o t m]; simpl in *.
  rewrite <- (insert_delete_id m seg s) by done.
  rewrite map_fold_insert_L.
  - lia.
  - intros; lia.
  - apply lookup_delete_eq.
Qed.

Lemma subRoute_children_ind (P : subRoute Filesystem → Prop) :
  (∀ sr, (∀ seg s, routes sr !! seg = Some s → P s) → P sr) → ∀ sr, P sr.
Proof.
  intros Hstep sr.
  remember (nodeCount sr) as k eqn:Hk. revert sr Hk.
  induction k as [k IH] using lt_wf_ind. intros sr ->.
  apply Hstep. intros seg s Hs. eapply IH; [|done]. by eapply nodeCount_child.
Qed.

Lemma nodeAt_snoc q seg sr n s :
  nodeAt q sr = Some n → routes n !! seg = Some s →
  nodeAt (q ++ [seg]) sr = Some s.
Proof.
  revert sr. induction q as [|seg' q IH]; intros sr; simpl.
  - intros [= ->] ->. done.
  - destruct (routes sr !! seg'); [|done]. apply IH.
Qed.

Lemma noGarbage_garbageFree sr : noGarbage sr ↔ garbageFree sr.
Proof.
  split.
  - induction sr as [sr IH] using subRoute_children_ind. intros Hng.
    apply garbageFree_intro. intros seg s Hs. split.
    + apply live_has_bound. apply (Hng [seg]); [done|]. simpl. by rewrite Hs.
    + apply (IH seg s Hs). intros q n Hq Hn.
      apply (Hng (seg :: q)); [done|]. simpl. by rewrite Hs.
  - intros Hgf q n Hq Hn. apply live_has_bound. by eapply garbageFree_nodeAt.
Qed.

Lemma noGarbage_noEmptyNode sr : noGarbage sr ↔ noEmptyNode sr.
Proof.
  split.
  - intros Hng q n Hq Hn [Hfs Hroutes].
    destruct (Hng q n Hq Hn) as ([|seg q'] & b & Hb).
    + unfold boundAt in Hb; simpl in Hb. congruence.
    + rewrite boundAt_cons, Hroutes, lookup_empty in Hb. done.
  - intros Hne q n. revert q.
    induction n as [n IH] using subRoute_children_ind. intros q Hq Hn.
    destruct (fs n) as [b|] eqn:Hfs.
    + by exists [], b.
    + destruct (map_choose (routes n)) as (seg & s & Hs).
      { intros Hroutes. by apply (Hne q n). }
      destruct (IH seg s Hs (q ++ [seg])%list) as (q' & b & Hb).
      * by destruct q.
      * by eapply nodeAt_snoc.
      * exists (seg :: q'), b. by rewrite boundAt_cons, Hs.
Qed.

(** C4.  The table of [New] has no garbage, and a [Mount] or an [Umount]
    that runs to its end on a table without garbage leaves a table
    without garbage: every node below the root has a backend or a node
    below it that has one.  This is the same as: no node below the root is
    without backend and without children. *)
Theorem table_garbage_free :
  (∀ sr, noGarbage sr ↔ noEmptyNode sr)
  ∧ (∀ (root : Filesystem) now, noGarbage (Router_routes (New root now)))
  ∧ (∀ r p b now,
      noGarbage (Router_routes r) → noGarbage (Router_routes (Mount r p b now)))
  ∧ (∀ r p now r',
      noGarbage (Router_routes r) → Umount r p now = Returned r' →
      noGarbage (Router_routes r')).
Proof.
  split; [apply noGarbage_noEmptyNode|]. split; [|split].
  - intros root now. apply noGarbage_garbageFree, New_garbageFree.
  - intros r p b now Hng. apply noGarbage_garbageFree; simpl.
    by apply mountLoop_garbageFree, noGarbage_garbageFree.
  - intros r p now r' Hng. unfold Umount.
    destruct (umountLoop _ _ _) as [[sr' run]|] eqn:Hloop; [|done].
    intros [= <-]. apply noGarbage_garbageFree; simpl.
    eapply umountLoop_garbageFree; [|done]. by apply noGarbage_garbageFree.
Qed.

(** Hence on every table that a sequence of calls builds from [New]. *)
Lemma runOps_noGarbage (root : Filesystem) t0 ops r :
  runOps ops (New root t0) = Returned r → noGarbage (Router_routes r).
Proof.
  intros Hrun. apply noGarbage_garbageFree.
  eapply runOps_garbageFree; [|done]. apply New_garbageFree.
Qed.

End MountTable.

(** ** The listing merge of [ReadDir] *)

Section ReadDirMerge.
Context {Filesystem File : Type} `{!EqDecision Filesystem}.
Context `{!Billy Filesystem File}.
Implicit Types (r : Router Filesystem) (ro sr : subRoute Filesystem).
Implicit Types (out : gmap string FileInfo) (mp fn : string).

(** A [virtualDir] is a directory with the name of its segment. *)
Lemma virtualDir_entry mp (t : Time) :
  let v := Virtual (VirtualDir mp t) in
  Name v = mp ∧ IsDir v = true ∧ Size v = 4096%Z ∧ ModTime v = t
  ∧ Mode v = 2147484141%N.
Proof. done. Qed.

Lemma overlayRoute_spec mp ro out0 calls out :
  overlayRoute mp ro out0 = (calls, Returned (Ok out)) →
  (∃ x, overlaid mp ro (out0 !! mp) x ∧ out !! mp = Some x)
  ∧ ∀ fn, fn ≠ mp → out !! fn = out0 !! fn.
Proof.
  unfold overlayRoute, overlaid. destruct (fs ro) as [b|].
  - cbn. destruct (fsStat b "/") as [st|err]; [|done].
    intros [= _ <-]. split.
    + exists st. by rewrite lookup_insert_eq.
    + intros fn Hfn. by rewrite lookup_insert_ne.
  - destruct (out0 !! mp) as [e|] eqn:Hreal; [destruct (IsDir e)|];
      intros [= _ <-]; (split; [|intros fn Hfn; by rewrite ?lookup_insert_ne]).
    + by exists e.
    + eexists. by rewrite lookup_insert_eq.
    + eexists. by rewrite lookup_insert_eq.
Qed.

Lemma overlayRoutes_spec (routeCopy : list (string * subRoute Filesystem))
    out0 calls out :
  NoDup routeCopy.*1 →
  overlayRoutes routeCopy out0 = (calls, Returned (Ok out)) →
  (∀ mp ro, (mp, ro) ∈ routeCopy →
      ∃ x, overlaid mp ro (out0 !! mp) x ∧ out !! mp = Some x)
  ∧ ∀ fn, fn ∉ routeCopy.*1 → out !! fn = out0 !! fn.
Proof.
  revert out0 calls. induction routeCopy as [|[mp0 ro0] rest IH];
    intros out0 calls Hnodup; simpl.
  - intros [= _ <-]. split; [|done]. intros mp ro Hin. by apply not_elem_of_nil in Hin.
  - apply NoDup_cons in Hnodup as [Hfresh Hnodup].
    destruct (overlayRoute mp0 ro0 out0) as [calls0 [[out1|err]|v]] eqn:Hstep;
      cbn; try done.
    destruct (overlayRoutes rest out1) as [calls1 res] eqn:Hrest.
    intros [= _ ->].
    apply overlayRoute_spec in Hstep as [(x0 & Hx0 & Hout1) Hother].
    destruct (IH _ _ Hnodup Hrest) as [Hin Hout].
    split.
    + intros mp ro [[= -> ->] | Hmem]%elem_of_cons.
      * exists x0. split; [done|]. by rewrite Hout.
      * destruct (Hin mp ro Hmem) as (x & Hx & Hlook).
        exists x. split; [|done]. rewrite <- Hother; [done|].
        intros ->. apply Hfresh. apply list_elem_of_fmap. by exists (mp0, ro).
    + intros fn [Hne Hfn]%not_elem_of_cons. rewrite Hout by done. by apply Hother.
Qed.

Lemma sortedListing_lookup out fn e :
  out !! fn = Some e →
  ∃ i, sortedNames out !! i = Some fn ∧ sortedListing out !! i = Some e.
Proof.
  intros Hfn.
  assert (fn ∈ sortedNames out) as [i Hi]%list_elem_of_lookup.
  { unfold sortedNames. rewrite merge_sort_Permutation.
    apply list_elem_of_fmap. exists (fn, e). split; [done|].
    by apply elem_of_map_to_list. }
  exists i. split; [done|]. unfold sortedListing.
  rewrite list_lookup_fmap, Hi. simpl. f_equal. by apply lookup_total_correct.
Qed.

(** The names come in ascending order, each once. *)
Lemma sortedNames_sorted out :
  Sorted stringLe (sortedNames out) ∧ NoDup (sortedNames out).
Proof.
  split.
  - assert (Total stringLe) by (intros a b; apply String.leb_total).
    apply (Sorted_merge_sort stringLe).
  - unfold sortedNames. rewrite merge_sort_Permutation.
    apply NoDup_fst_map_to_list.
Qed.

(** The rule of the merge, for the children [m] of the node, in any order
    [routeCopy] that enumerates them. *)
Lemma mergeEntries_spec (m : gmap string (subRoute Filesystem)) routeCopy
    entries calls listing :
  routeCopy ≡ₚ map_to_list m →
  mergeEntries routeCopy entries = (calls, Returned (Ok listing)) →
  ∃ out,
    listing = sortedListing out
    ∧ (∀ mp ro, m !! mp = Some ro →
         ∃ x, overlaid mp ro (indexEntries entries !! mp) x ∧ out !! mp = Some x)
    ∧ (∀ fn, m !! fn = None → out !! fn = indexEntries entries !! fn).
Proof.
  intros Hperm. unfold mergeEntries.
  destruct (overlayRoutes routeCopy (indexEntries entries))
    as [calls' [[out|err]|v]] eqn:Hover; cbn; try done.
  intros [= _ <-]. exists out. split; [done|].
  apply overlayRoutes_spec in Hover as [Hin Hout].
  2: { rewrite Hperm. apply NoDup_fst_map_to_list. }
  split.
  - intros mp ro Hro. apply Hin. rewrite Hperm. by apply elem_of_map_to_list.
  - intros fn Hfn. apply Hout. rewrite Hperm.
    intros [[fn' ro] [-> Hmem%elem_of_map_to_list]]%list_elem_of_fmap.
    simpl in Hfn. congruence.
Qed.

Section Order.
Variable rangeOrder : gmap string (subRoute Filesystem) →
                      list (string * subRoute Filesystem).
Hypothesis rangeOrder_enumerates : ∀ m, rangeOrder m ≡ₚ map_to_list m.

(** A [ReadDir] that returns a listing for a node with children has
    listed the resolved backend and merged what it got. *)
Lemma ReadDir_returns r p calls listing :
  let sr := readDirLoop (Go.Split p) (Router_routes r) in
  routes sr ≠ ∅ →
  ReadDir rangeOrder r p = (calls, Returned (Ok listing)) →
  ∃ b entries calls',
    (resolvePath r p).2 = Some b
    ∧ (fsReadDir b (resolvePath r p).1 = Ok entries
       ∨ entries = [] ∧ ∃ err, fsReadDir b (resolvePath r p).1 = Err err
                               ∧ IsNotExist err = true)
    ∧ mergeEntries (rangeOrder (routes sr)) entries = (calls', Returned (Ok listing)).
Proof.
  intros sr Hchildren. unfold ReadDir. fold sr.
  destruct (resolvePath r p) as [sub recv]; simpl.
  rewrite bool_decide_eq_false_2 by by rewrite map_size_empty_iff.
  destruct recv as [b|]; [|done]. cbn.
  destruct (fsReadDir b sub) as [entries|err] eqn:Hlist.
  - destruct (mergeEntries _ entries) as [calls' res] eqn:Hm.
    intros [= _ ->]. exists b, entries, calls'. eauto.
  - destruct (IsNotExist err) eqn:Hnotexist; [|done]. cbn.
    destruct (mergeEntries _ []) as [calls' res] eqn:Hm.
    intros [= _ ->]. exists b, [], calls'. split; [done|]. split; [|done].
    right. eauto.
Qed.

(** C5.  When [ReadDir(p)] returns a listing and the node of [p] has
    children, the listing is the entries of [out] in the order of their
    names, where for every child [mp] of the node: without backend and
    without real entry of that name, [out[mp]] is the virtual directory
    named [mp]; without backend and with a real entry that is a
    directory, it is that entry; with a backend, it is what [Stat("/")]
    of that backend returns, whatever the real entry is.  The real
    entries are those the resolved backend lists, none if it reports
    that the directory does not exist. *)
Theorem ReadDir_merge r p calls listing :
  let sr := readDirLoop (Go.Split p) (Router_routes r) in
  routes sr ≠ ∅ →
  ReadDir rangeOrder r p = (calls, Returned (Ok listing)) →
  ∃ b entries out,
    (resolvePath r p).2 = Some b
    ∧ (fsReadDir b (resolvePath r p).1 = Ok entries
       ∨ entries = [] ∧ ∃ err, fsReadDir b (resolvePath r p).1 = Err err
                               ∧ IsNotExist err = true)
    ∧ listing = sortedListing out
    ∧ (∀ fn e, out !! fn = Some e →
         ∃ i, sortedNames out !! i = Some fn ∧ listing !! i = Some e)
    ∧ ∀ mp ro, routes sr !! mp = Some ro →
        (fs ro = None → indexEntries entries !! mp = None →
           out !! mp = Some (Virtual (VirtualDir mp (mtime ro))))
        ∧ (fs ro = None → ∀ e, indexEntries entries !! mp = Some e →
           IsDir e = true → out !! mp = Some e)
        ∧ (∀ b', fs ro = Some b' →
           ∃ st, fsStat b' "/" = Ok st ∧ out !! mp = Some st).
Proof.
  intros sr Hchildren Hread.
  destruct (ReadDir_returns r p calls listing Hchildren Hread)
    as (b & entries & calls' & Hb & Hentries & Hm).
  apply (mergeEntries_spec (routes sr)) in Hm as (out & -> & Hin & _); [|done].
  exists b, entries, out. split; [done|]. split; [done|]. split; [done|].
  split; [apply sortedListing_lookup|].
  intros mp ro Hro. destruct (Hin mp ro Hro) as (x & Hx & Hout).
  unfold overlaid in Hx. repeat split.
  - intros Hfs Hreal. by rewrite Hfs, Hreal in Hx; subst.
  - intros Hfs e Hreal Hdir. by rewrite Hfs, Hreal, Hdir in Hx; subst.
  - intros b' Hfs. rewrite Hfs in Hx. eauto.
Qed.
End Order.

End ReadDirMerge.

(** ** The properties at concrete inputs *)

Module Witness.
Import Backends Inputs.

Lemma opened_file_witness :
  fileName (wrapped (WrappedFile "" "/tmp/x")) = ""
  ∧ wrappedFile_Name (WrappedFile "" "/tmp/x") = "/tmp/x"
  ∧ wrappedFile_Name (WrappedFile "" "/tmp/y") = "/tmp/y"
  ∧ wrappedFile_Name (WrappedFile "" "/tmp/z") = "/tmp/z".
Proof.
  split; [reflexivity|]. split; [|split].
  - destruct (opened_file_reports_original_name mounted "/tmp/x" 0%Z 0%N
                [CallOpen rootFS ""] (WrappedFile "" "/tmp/x")) as (Hopen & _ & _).
    apply Hopen. reflexivity.
  - destruct (opened_file_reports_original_name mounted "/tmp/y" 0%Z 0%N
                [CallCreate rootFS ""] (WrappedFile "" "/tmp/y")) as (_ & Hcreate & _).
    apply Hcreate. reflexivity.
  - destruct (opened_file_reports_original_name mounted "/tmp/z" 2%Z 420%N
                [CallOpenFile rootFS "" 2%Z 420%N] (WrappedFile "" "/tmp/z"))
      as (_ & _ & Hopenfile).
    apply Hopenfile. reflexivity.
Defined.

Lemma TempFile_witness :
  TempFile mounted "" "job" = ([CallTempFile rootFS "" "job"], Returned (Ok "/job"))
  ∧ TempFile mounted "/tmp" "job" = ([CallTempFile rootFS "" "job"], Returned (Ok "/job")).
Proof.
  assert (runOps [DoMount "/tmp" tmpFS 11] (New rootFS 10) = Returned mounted) as Hrun
    by reflexivity.
  destruct (TempFile_delegation rootFS 10 _ mounted "job" Hrun) as [Hroot Hdir].
  split; [exact Hroot|].
  rewrite (Hdir "/tmp"); [reflexivity | discriminate].
Defined.

(** The body of [Rename] on two resolutions as the mount table intends
    them, a path under [/tmp] and a path of the root: the callback is called,
    and the one [New] installs fails. *)
Example renameResolved_across_backends :
  renameResolved (File:=string) crossFilesystemRenameNotSupported
    ("a", "/tmp", Some tmpFS) ("b", "/tmp", Some tmpFS)
  = ([CallRename tmpFS "a" "b"], Returned None)
  ∧ renameResolved (File:=string) crossFilesystemRenameNotSupported
      ("a", "/tmp", Some tmpFS) ("b", "", Some rootFS)
    = ([CallCrossRename (Some tmpFS) (Some rootFS) "a" "b"],
       Returned (Some (Errorf "renaming across virtual mountpoints is not supported"
                         ErrInvalid))).
Proof. done. Qed.

Lemma Mount_frame_witness :
  boundAt ["."] (Router_routes (Mount mounted "." (Emptyfs 5) 12)) = Some (Emptyfs 5)
  ∧ boundAt [""] (Router_routes (Mount mounted "." (Emptyfs 5) 12))
    = boundAt [""] (Router_routes mounted)
  ∧ nodeAt [""] (Router_routes (Mount mounted "." (Emptyfs 5) 12))
    = nodeAt [""] (Router_routes mounted)
  ∧ (resolvePathWithMount (Mount mounted "." (Emptyfs 5) 12) "/tmp/x").2
    = (resolvePathWithMount mounted "/tmp/x").2
  ∧ specResolve (Mount mounted "." (Emptyfs 5) 12) "/tmp/x" = ("", "", Some tmpFS).
Proof.
  destruct (Mount_frame mounted "." (Emptyfs 5) 12)
    as (Hbound & Hother & Hnode & Hresolve).
  split; [exact Hbound|]. split; [apply Hother; discriminate|].
  split.
  { apply Hnode. intros [k Hk]. discriminate Hk. }
  destruct (Hresolve "/tmp/x") as [Hcode Hspec]; [discriminate|].
  split; [exact Hcode|]. rewrite Hspec. reflexivity.
Defined.

Lemma table_garbage_free_witness :
  noGarbage (Router_routes mounted) ∧ noGarbage (Router_routes (New rootFS 12)).
Proof.
  destruct (table_garbage_free (Filesystem:=backend)) as (_ & Hnew & Hmount & Humount).
  split.
  - apply Hmount, Hnew.
  - apply (Humount mounted "/tmp" 12).
    + apply Hmount, Hnew.
    + reflexivity.
Defined.

Example ReadDir_overlay :
  ReadDir map_to_list overlay ""
  = ([CallReadDir listedRoot "."; CallStat (Emptyfs 7) "/"],
     Returned (Ok [Virtual (VirtualDir "X1" 11); entryX2; rootDir 7; entryY])).
Proof. vm_compute. reflexivity. Qed.

Lemma ReadDir_merge_witness :
  ∃ b entries out,
    (resolvePath overlay "").2 = Some b
    ∧ (fsReadDir b (resolvePath overlay "").1 = Ok entries
       ∨ entries = [] ∧ ∃ err, fsReadDir b (resolvePath overlay "").1 = Err err
                               ∧ IsNotExist err = true)
    ∧ [Virtual (VirtualDir "X1" 11); entryX2; rootDir 7; entryY] = sortedListing out
    ∧ (∀ fn e, out !! fn = Some e →
         ∃ i, sortedNames out !! i = Some fn
              ∧ [Virtual (VirtualDir "X1" 11); entryX2; rootDir 7; entryY] !! i = Some e)
    ∧ ∀ mp ro, routes (readDirLoop (Go.Split "") (Router_routes overlay)) !! mp = Some ro →
        (fs ro = None → indexEntries entries !! mp = None →
           out !! mp = Some (Virtual (VirtualDir mp (mtime ro))))
        ∧ (fs ro = None → ∀ e, indexEntries entries !! mp = Some e →
           IsDir e = true → out !! mp = Some e)
        ∧ (∀ b', fs ro = Some b' →
           ∃ st, fsStat b' "/" = Ok st ∧ out !! mp = Some st).
Proof.
  apply (ReadDir_merge map_to_list (λ m, reflexivity _) overlay ""
           [CallReadDir listedRoot "."; CallStat (Emptyfs 7) "/"]).
  - intros Hempty.
    assert (routes (readDirLoop (Go.Split "") (Router_routes overlay)) !! "X3" = None)
      as Hnone by (rewrite Hempty; reflexivity).
    vm_compute in Hnone. discriminate Hnone.
  - vm_compute. reflexivity.
Defined.

End Witness.

(** * Further properties of the code *)

(** ** [Mount] and [Umount] on the table *)

Section TableOperations.
Context {Filesystem : Type} `{!EqDecision Filesystem}.
Implicit Types (r : Router Filesystem) (sr s n : subRoute Filesystem).
Implicit Types (sp q : list string) (seg : string).

Lemma subRoute_eta sr : SubRoute (fs sr) (mtime sr) (routes sr) = sr.
Proof. by destruct sr. Qed.

(** The loop of [Mount] makes or keeps a node at every prefix of its
    segments, and stamps the ones it walks into. *)
Lemma mountLoop_prefix_node sp b now sr q :
  q `prefix_of` sp →
  ∃ n, nodeAt q (mountLoop sp b now sr) = Some n
       ∧ mtime n = match q with [] => mtime sr | _ => now end.
Proof.
  revert sr q. induction sp as [|seg rest IH]; intros sr q Hq.
  - apply prefix_nil_inv in Hq as ->. by eexists.
  - destruct q as [|seg' q]; [by eexists|].
    pose proof (prefix_cons_inv_1 _ _ _ _ Hq) as ->.
    apply prefix_cons_inv_2 in Hq. simpl. rewrite lookup_insert_eq.
    destruct (IH (SubRoute (fs (default newSubRoute (routes sr !! seg))) now
                    (routes (default newSubRoute (routes sr !! seg)))) q Hq)
      as (n & Hn & Hmtime).
    exists n. split.
    + by destruct (routes sr !! seg).
    + rewrite Hmtime. by destruct q.
Qed.

(** X1.  After [Mount(p, b)] there is a node at every prefix of the
    segments of the normalized [p]: the root keeps its time stamp, every
    node below it on the path carries the time of the call, the node at the
    end has the backend [b], and the others have the backend they had. *)
Theorem Mount_makes_path r p b now q :
  let sp := Go.Split (cleanPath p) in
  q `prefix_of` sp →
  ∃ n, nodeAt q (Router_routes (Mount r p b now)) = Some n
       ∧ mtime n = match q with [] => mtime (Router_routes r) | _ => now end
       ∧ fs n = if decide (q = sp) then Some b else boundAt q (Router_routes r).
Proof.
  intros sp Hq.
  destruct (mountLoop_prefix_node sp b now (Router_routes r) q Hq)
    as (n & Hn & Hmtime).
  exists n. split; [done|]. split; [done|].
  assert (boundAt q (Router_routes (Mount r p b now)) = fs n) as <-.
  { unfold boundAt. simpl. fold sp. by rewrite Hn. }
  simpl. fold sp. destruct (decide (q = sp)) as [->|Hne].
  - apply boundAt_mountLoop_eq.
  - by apply boundAt_mountLoop_ne.
Qed.

(** The loop of [Mount], run twice on the same segments. *)
Lemma mountLoop_mtime sp b now sr : mtime (mountLoop sp b now sr) = mtime sr.
Proof. by destruct sp. Qed.

Lemma mountLoop_twice_touch sp b1 now1 b2 now2 sr t1 t2 :
  let once := mountLoop sp b1 now1 (SubRoute (fs sr) t1 (routes sr)) in
  mountLoop sp b2 now2 (SubRoute (fs once) t2 (routes once))
  = mountLoop sp b2 now2 (SubRoute (fs sr) t2 (routes sr)).
Proof.
  revert sr t1 t2. induction sp as [|seg rest IH]; intros sr t1 t2; [done|].
  simpl. rewrite lookup_insert_eq, insert_insert_eq. f_equal. f_equal.
  apply IH.
Qed.

Lemma mountLoop_twice sp b1 now1 b2 now2 sr :
  mountLoop sp b2 now2 (mountLoop sp b1 now1 sr) = mountLoop sp b2 now2 sr.
Proof.
  pose proof (mountLoop_twice_touch sp b1 now1 b2 now2 sr (mtime sr) (mtime sr)) as H.
  cbv zeta in H. rewrite (subRoute_eta sr) in H.
  rewrite <- (mountLoop_mtime sp b1 now1 sr) in H at 1.
  by rewrite subRoute_eta in H.
Qed.

(** X2.  A second [Mount] at a path with the same normal form replaces
    the first: the table is the one the second call alone would have
    made. *)
Theorem Mount_again_replaces r p p' b1 now1 b2 now2 :
  cleanPath p = cleanPath p' →
  Mount (Mount r p b1 now1) p' b2 now2 = Mount r p' b2 now2.
Proof.
  intros Hkey. unfold Mount. simpl. rewrite Hkey. f_equal.
  apply mountLoop_twice.
Qed.

(** X3.  When the first segment of the normalized path has no node in the
    table, [Mount] and then [Umount] of the path give the table back; only
    the time stamp of the root is that of the [Umount]. *)
Theorem Mount_Umount_restores r p b now now' :
  nodeAt (take 1 (Go.Split (cleanPath p))) (Router_routes r) = None →
  Umount (Mount r p b now) p now'
  = Returned {| Router_routes :=
                  SubRoute (fs (Router_routes r)) now' (routes (Router_routes r));
                crossFilesystemRenameCallback := crossFilesystemRenameCallback r |}.
Proof.
  intros Hnew. unfold Umount, Mount. simpl.
  destruct (Go.Split (cleanPath p)) as [|seg rest] eqn:Hsp.
  - by apply Split_nonempty in Hsp.
  - rewrite umountLoop_mountLoop_new; [done|].
    simpl in Hnew. by destruct (routes (Router_routes r) !! seg).
Qed.

(** What the loops of [Umount] leave alone. *)
Lemma inUse_false_empty s :
  inUse s = false → fs s = None ∧ routes s = ∅.
Proof.
  unfold inUse. intros [Hsize Hfs]%orb_false_iff.
  apply bool_decide_eq_false in Hsize, Hfs. split.
  - by destruct (fs s); [destruct Hfs|].
  - apply map_size_empty_iff. lia.
Qed.

Lemma boundAt_empty_node s q : fs s = None → routes s = ∅ → boundAt q s = None.
Proof.
  intros Hfs Hroutes. destruct q; [done|].
  by rewrite boundAt_cons, Hroutes, lookup_empty.
Qed.

Lemma umountLoop_boundAt sp now sr sr' running q :
  umountLoop sp now sr = Some (sr', running) →
  boundAt q sr' = if decide (q = sp) then None else boundAt q sr.
Proof.
  revert sr sr' running q. induction sp as [|seg rest IH]; intros sr sr' run q; simpl.
  - intros [= <- <-]. destruct q; [done|]. by rewrite !boundAt_cons.
  - destruct (routes sr !! seg) as [s|] eqn:Hs; [|done].
    destruct (umountLoop rest now s) as [[s' run']|] eqn:Hloop; [|done].
    pose proof (λ q', IH _ _ _ q' Hloop) as Hs'.
    destruct (run' && negb (inUse s')) eqn:Hprune; intros [= <- <-].
    + apply andb_true_iff in Hprune as [_ Huse%negb_true_iff].
      apply inUse_false_empty in Huse as [Hfs Hroutes].
      destruct q as [|seg' q]; [done|]. rewrite !boundAt_cons. simpl.
      destruct (decide (seg = seg')) as [<-|Hne].
      * rewrite lookup_delete_eq, Hs.
        destruct (decide (seg :: q = seg :: rest)) as [|Hq]; [done|].
        specialize (Hs' q). rewrite decide_False in Hs' by congruence.
        by rewrite <- Hs', (boundAt_empty_node s' q).
      * rewrite lookup_delete_ne by done.
        by rewrite decide_False by congruence.
    + destruct q as [|seg' q]; [done|]. rewrite !boundAt_cons. simpl.
      destruct (decide (seg = seg')) as [<-|Hne].
      * rewrite lookup_insert_eq, Hs, Hs'.
        destruct (decide (q = rest)) as [->|Hq].
        -- by rewrite decide_True.
        -- by rewrite decide_False by congruence.
      * rewrite lookup_insert_ne by done.
        by rewrite decide_False by congruence.
Qed.

Lemma umountLoop_nodeAt_off sp now sr sr' running q :
  umountLoop sp now sr = Some (sr', running) →
  ¬ q `prefix_of` sp → nodeAt q sr' = nodeAt q sr.
Proof.
  revert sr sr' running q. induction sp as [|seg rest IH]; intros sr sr' run q; simpl.
  - intros [= <- <-] Hq. destruct q; [|done]. destruct Hq. apply prefix_nil.
  - destruct (routes sr !! seg) as [s|] eqn:Hs; [|done].
    destruct (umountLoop rest now s) as [[s' run']|] eqn:Hloop; [|done].
    intros Hres Hq. destruct q as [|seg' q]; [destruct Hq; apply prefix_nil|].
    destruct (decide (seg = seg')) as [<-|Hne].
    + assert (¬ q `prefix_of` rest) as Hq' by (intros H; by apply Hq, prefix_cons).
      assert (q ≠ []) as Hnil by (intros ->; apply Hq', prefix_nil).
      pose proof (IH _ _ _ q Hloop Hq') as Hs'.
      destruct (run' && negb (inUse s')) eqn:Hprune; injection Hres as <- <-; simpl.
      * apply andb_true_iff in Hprune as [_ Huse%negb_true_iff].
        apply inUse_false_empty in Huse as [_ Hroutes].
        rewrite lookup_delete_eq, Hs, <- Hs'.
        destruct q; [done|]. simpl. by rewrite Hroutes, lookup_empty.
      * by rewrite lookup_insert_eq, Hs.
    + destruct (run' && negb (inUse s')); injection Hres as <- <-; simpl.
      * by rewrite lookup_delete_ne.
      * by rewrite lookup_insert_ne.
Qed.

(** X4.  An [Umount(p)] that returns leaves no backend at the segments of
    the normalized [p], changes the backend at no other path, and changes
    no node but those at the prefixes of that path. *)
Theorem Umount_frame r p now r' :
  Umount r p now = Returned r' →
  let sp := Go.Split (cleanPath p) in
  boundAt sp (Router_routes r') = None
  ∧ (∀ q, q ≠ sp → boundAt q (Router_routes r') = boundAt q (Router_routes r))
  ∧ (∀ q, ¬ q `prefix_of` sp →
      nodeAt q (Router_routes r') = nodeAt q (Router_routes r)).
Proof.
  unfold Umount.
  destruct (umountLoop _ _ _) as [[sr' run]|] eqn:Hloop; [|done].
  intros [= <-]. simpl. split; [|split].
  - by rewrite (umountLoop_boundAt _ _ _ _ _ _ Hloop), decide_True.
  - intros q Hq. by rewrite (umountLoop_boundAt _ _ _ _ _ _ Hloop), decide_False.
  - intros q Hq. by eapply umountLoop_nodeAt_off.
Qed.

(** The node at the end of the path after the loops of [Umount]. *)
Lemma umountLoop_nodeAt_end sp now sr sr' running n :
  sp ≠ [] → nodeAt sp sr = Some n →
  umountLoop sp now sr = Some (sr', running) →
  (routes n = ∅ → nodeAt sp sr' = None)
  ∧ (routes n ≠ ∅ → nodeAt sp sr' = Some (SubRoute None (mtime n) (routes n))).
Proof.
  revert sr sr' running. induction sp as [|seg rest IH]; intros sr sr' run Hsp; [done|].
  simpl. destruct (routes sr !! seg) as [s|] eqn:Hs; [|done].
  destruct (umountLoop rest now s) as [[s' run']|] eqn:Hloop; [|done].
  intros Hn Hres. destruct rest as [|seg' rest].
  - simpl in Hn, Hloop. injection Hn as ->. injection Hloop as <- <-.
    unfold inUse in Hres. simpl in Hres. rewrite orb_false_r in Hres.
    case_bool_decide as Hsize; simpl in Hres; injection Hres as <- <-; simpl.
    + rewrite lookup_insert_eq. split; [|done].
      intros Hempty. rewrite Hempty, map_size_empty in Hsize. lia.
    + rewrite lookup_delete_eq. split; [done|].
      intros Hne. destruct Hsize.
      apply Nat.neq_0_lt_0. by apply map_size_non_empty_iff.
  - destruct (IH s s' run' ltac:(done) Hn Hloop) as [Hgone Hkept].
    destruct (run' && negb (inUse s')) eqn:Hprune; injection Hres as <- <-; simpl.
    + apply andb_true_iff in Hprune as [_ Huse%negb_true_iff].
      apply inUse_false_empty in Huse as [_ Hroutes].
      rewrite lookup_delete_eq. split; [done|].
      intros Hne. specialize (Hkept Hne). simpl in Hkept.
      by rewrite Hroutes, lookup_empty in Hkept.
    + rewrite lookup_insert_eq. split; [apply Hgone | apply Hkept].
Qed.

(** X5.  After an [Umount(p)] that returns: when the node of [p] had no
    children it is gone from the table, and a second [Umount(p)] panics;
    when it had children it is still there, with its children and without
    backend. *)
Theorem Umount_node_afterwards r p now r' n :
  let sp := Go.Split (cleanPath p) in
  nodeAt sp (Router_routes r) = Some n →
  Umount r p now = Returned r' →
  (routes n = ∅ →
     nodeAt sp (Router_routes r') = None
     ∧ ∀ now', Umount r' p now' = Panicked (NotAMountpoint (cleanPath p)))
  ∧ (routes n ≠ ∅ →
     nodeAt sp (Router_routes r') = Some (SubRoute None (mtime n) (routes n))).
Proof.
  intros sp Hn. unfold Umount. fold sp.
  destruct (umountLoop sp now (Router_routes r)) as [[sr' run]|] eqn:Hloop; [|done].
  intros [= <-]. simpl.
  destruct (umountLoop_nodeAt_end sp now _ _ _ n (Split_nonempty _) Hn Hloop)
    as [Hgone Hkept].
  split; [|done]. intros Hempty. split; [by apply Hgone|].
  intros now'. apply Hgone in Hempty.
  apply (umountLoop_None _ now') in Hempty. by rewrite Hempty.
Qed.

End TableOperations.

(** ** The pieces [resolvePathWithMount] returns *)

Lemma append_assoc (a b c : string) : (a +:+ b) +:+ c = a +:+ (b +:+ c).
Proof.
  induction a as [|x a IH]; [done|].
  change (String x ((a +:+ b) +:+ c) = String x (a +:+ (b +:+ c))).
  by rewrite IH.
Qed.

Lemma Join_cons e rest :
  rest ≠ [] → Go.Join (e :: rest) = e +:+ "/" +:+ Go.Join rest.
Proof. by destruct rest. Qed.

Lemma Join_Split (s : string) : Go.Join (Go.Split s) = s.
Proof.
  induction s as [|c s IH]; [done|]. simpl.
  destruct (Go.isSlash c) eqn:Hc.
  - apply bool_decide_eq_true in Hc as ->.
    rewrite Join_cons by apply Split_nonempty. by rewrite IH.
  - destruct (Go.Split s) as [|piece pieces] eqn:Hs.
    { by apply Split_nonempty in Hs. }
    destruct pieces as [|piece' pieces].
    + simpl in *. by rewrite IH.
    + rewrite Join_cons by done. rewrite <- IH, (Join_cons piece) by done.
      reflexivity.
Qed.

Lemma Join_app (l1 l2 : list string) :
  l1 ≠ [] → l2 ≠ [] →
  Go.Join (l1 ++ l2)%list = Go.Join l1 +:+ "/" +:+ Go.Join l2.
Proof.
  intros Hl1 Hl2. induction l1 as [|e l1 IH]; [done|].
  destruct l1 as [|e' l1].
  - change ([e] ++ l2)%list with (e :: l2). by rewrite Join_cons.
  - change ((e :: e' :: l1) ++ l2)%list with (e :: (e' :: l1) ++ l2)%list.
    rewrite (Join_cons e) by done.
    rewrite IH by done. rewrite (Join_cons e (e' :: l1)) by done.
    by rewrite !append_assoc.
Qed.

Section ResolvedPieces.
Context {Filesystem : Type} `{!EqDecision Filesystem}.
Implicit Types (r : Router Filesystem) (sr : subRoute Filesystem).

Lemma resolveLoop_le (sp : list string) (i : nat) sr (lastMount : nat) :
  (lastMount ≤ i)%nat → (resolveLoop sp i sr lastMount ≤ i + length sp)%nat.
Proof.
  revert i sr lastMount. induction sp as [|seg rest IH]; intros i sr l Hl; simpl.
  - lia.
  - destruct (routes sr !! seg) as [s|]; [|lia].
    etrans; [apply IH|lia]. case_bool_decide; lia.
Qed.

(** X6.  On every list of segments and every table, the index that the
    loop of [resolvePathWithMount] ends with lies within the list, so the
    slices [sp[lastMount:]] and [sp[:lastMount]] are never out of range;
    they are complementary, and when neither is empty the mount point, a
    slash and the backend-relative path make up the joined segments.  For
    [resolvePathWithMount] the segments are those of the normalized path,
    which they join to. *)
Theorem resolve_cut_in_range (sp : list string) sr :
  let k := resolveLoop sp 0 sr 0 in
  (k ≤ length sp)%nat
  ∧ (take k sp ++ drop k sp)%list = sp
  ∧ ((0 < k < length sp)%nat →
     Go.Join (take k sp) +:+ "/" +:+ Go.Join (drop k sp) = Go.Join sp)
  ∧ (∀ r p, sp = Go.Split (cleanPath p) → sr = Router_routes r →
       resolvePathWithMount r p
       = (Go.Join (drop k sp), Go.Join (take k sp), fs (Router_routes r))
       ∧ Go.Join sp = cleanPath p).
Proof.
  intros k. split; [apply (resolveLoop_le sp 0); lia|].
  split; [apply take_drop|]. split.
  - intros Hk. rewrite <- Join_app; [by rewrite take_drop| |].
    + intros Hnil%(f_equal length). rewrite length_take in Hnil. simpl in Hnil. lia.
    + intros Hnil%(f_equal length). rewrite length_drop in Hnil. simpl in Hnil. lia.
  - intros r p -> ->. split; [done|]. apply Join_Split.
Qed.

End ResolvedPieces.

(** ** [Root] and [Capabilities] *)

(** X7.  On a router that a sequence of [Mount] and [Umount] calls built
    from [New(root)], [Root] is the root path of [root], and [Capabilities]
    is what [billy.Capabilities] reports for [root]: neither depends on
    what is mounted. *)
Theorem Root_Capabilities_of_root {Filesystem} `{!EqDecision Filesystem}
    `{!BillyRoot Filesystem} (root : Filesystem) t0 ops r :
  runOps ops (New root t0) = Returned r →
  Root r = Returned (fsRoot root)
  ∧ Capabilities r = billyCapabilities (Some root).
Proof.
  intros Hrun. unfold Root, Capabilities.
  by rewrite (runOps_root_fs _ _ _ Hrun).
Qed.

(** ** Package [emptyfs] *)

Lemma emptyfs_isRootPath p :
  emptyfs.isRootPath p = true ↔ p = "/" ∨ p = "" ∨ p = ".".
Proof.
  unfold emptyfs.isRootPath.
  rewrite !orb_true_iff, !bool_decide_eq_true. tauto.
Qed.

(** X8.  An [emptyfs] file system has a root and nothing else: [Stat] and
    [ReadDir] succeed on the same paths, ["/"], [""] and ["."]; the listing
    is empty; the root is a directory without write permission, dated at the
    creation of the file system; every other path does not exist; and
    [Lstat] is [Stat]. *)
Theorem emptyfs_root_only (f : emptyfs.Filesystem) (p : string) :
  (emptyfs.ReadDir f p = Ok [] ↔ p = "/" ∨ p = "" ∨ p = ".")
  ∧ ((∃ i, emptyfs.Stat f p = Ok i) ↔ p = "/" ∨ p = "" ∨ p = ".")
  ∧ (∀ l, emptyfs.ReadDir f p = Ok l → l = [])
  ∧ (∀ i, emptyfs.Stat f p = Ok i →
       IsDir i = true ∧ N.land (Mode i) 146 = 0%N ∧ ModTime i = emptyfs.ctime f)
  ∧ (∀ err, emptyfs.ReadDir f p = Err err ∨ emptyfs.Stat f p = Err err →
       IsNotExist err = true)
  ∧ emptyfs.Lstat f p = emptyfs.Stat f p.
Proof.
  rewrite <- emptyfs_isRootPath.
  split; [|split; [|split; [|split; [|split; [|done]]]]];
    unfold emptyfs.ReadDir, emptyfs.Stat; destruct (emptyfs.isRootPath p).
  - by split.
  - by split.
  - split; [done|by eexists].
  - split; [by intros [i ?]|done].
  - by intros l [= <-].
  - done.
  - by intros i [= <-].
  - done.
  - by intros err [H|H].
  - intros err [H|H]; by injection H as <-.
Qed.

(** ** More on [ReadDir] *)

Section ReadDirMore.
Context {Filesystem File : Type} `{!EqDecision Filesystem}.
Context `{!Billy Filesystem File}.
Implicit Types (r : Router Filesystem) (ro sr : subRoute Filesystem).
Implicit Types (out : gmap string FileInfo) (mp fn : string).
Implicit Types (entries : list FileInfo).

Lemma indexEntries_snoc entries e :
  indexEntries (entries ++ [e]) = <[Name e := e]> (indexEntries entries).
Proof. unfold indexEntries. by rewrite foldl_app. Qed.

(** X9.  Of the entries a backend lists under one name, the index that
    [ReadDir] builds keeps the last: a later entry replaces an earlier one
    of the same name, and a name is in the index when some entry has it. *)
Theorem indexEntries_last_wins entries fn :
  indexEntries entries !! fn
  = last (filter (λ e, Name e = fn) entries).
Proof.
  induction entries as [|e entries IH] using rev_ind; [done|].
  rewrite indexEntries_snoc, filter_app, last_app.
  destruct (decide (Name e = fn)) as [<-|Hne].
  - rewrite lookup_insert_eq.
    by rewrite (filter_cons_True (λ e', Name e' = Name e) e []).
  - rewrite lookup_insert_ne by done.
    by rewrite (filter_cons_False (λ e', Name e' = fn) e []), IH.
Qed.

Lemma indexEntries_is_Some entries fn :
  is_Some (indexEntries entries !! fn) ↔ ∃ e, e ∈ entries ∧ Name e = fn.
Proof.
  rewrite indexEntries_last_wins, last_is_Some. split.
  - intros Hne. destruct (filter _ entries) as [|e l] eqn:Hf; [done|].
    assert (e ∈ filter (λ e, Name e = fn) entries) as [? ?]%list_elem_of_filter
      by (rewrite Hf; left).
    eauto.
  - intros (e & He & Hname) Hnil.
    assert (e ∈ filter (λ e, Name e = fn) entries) as Hin
      by by apply list_elem_of_filter.
    rewrite Hnil in Hin. by apply not_elem_of_nil in Hin.
Qed.

(** The names of the merged map are those of the entries and of the
    children. *)
Lemma mergeEntries_names (m : gmap string (subRoute Filesystem)) routeCopy
    entries calls listing :
  routeCopy ≡ₚ map_to_list m →
  mergeEntries routeCopy entries = (calls, Returned (Ok listing)) →
  ∃ out,
    listing = sortedListing out
    ∧ (∀ mp ro, m !! mp = Some ro →
         ∃ x, overlaid mp ro (indexEntries entries !! mp) x ∧ out !! mp = Some x)
    ∧ (∀ fn, m !! fn = None → out !! fn = indexEntries entries !! fn)
    ∧ dom out = dom (indexEntries entries) ∪ dom m.
Proof.
  intros Hperm Hm.
  destruct (mergeEntries_spec m routeCopy entries calls listing Hperm Hm)
    as (out & Hlisting & Hin & Hout).
  exists out. split; [done|]. split; [done|]. split; [done|].
  apply set_eq. intros fn. rewrite elem_of_union, !elem_of_dom.
  destruct (m !! fn) as [ro|] eqn:Hfn.
  - destruct (Hin fn ro Hfn) as (x & _ & ->). split; eauto.
  - rewrite (Hout fn Hfn). split; [by left|]. by intros [?|[? [=]]].
Qed.

Lemma sortedListing_length out : length (sortedListing out) = size out.
Proof.
  unfold sortedListing, sortedNames.
  by rewrite length_fmap, merge_sort_Permutation, length_fmap, length_map_to_list.
Qed.

Lemma elem_of_sortedNames out fn : fn ∈ sortedNames out ↔ fn ∈ dom out.
Proof.
  unfold sortedNames. rewrite merge_sort_Permutation, elem_of_dom.
  rewrite list_elem_of_fmap. split.
  - intros [[fn' e] [-> He%elem_of_map_to_list]]. eauto.
  - intros [e He]. exists (fn, e). split; [done|]. by apply elem_of_map_to_list.
Qed.

(** The calls and the failures of the loop over the children. *)
Lemma overlayRoutes_calls (routeCopy : list (string * subRoute Filesystem))
    out0 calls res c :
  overlayRoutes routeCopy out0 = (calls, res) → c ∈ calls →
  ∃ mp ro b, (mp, ro) ∈ routeCopy ∧ fs ro = Some b ∧ c = CallStat b "/".
Proof.
  revert out0 calls res. induction routeCopy as [|[mp0 ro0] rest IH];
    intros out0 calls res; simpl.
  - intros [= <- _] Hc. by apply not_elem_of_nil in Hc.
  - assert (∀ out1 calls', overlayRoutes rest out1 = (calls', res) → c ∈ calls' →
              ∃ mp ro b, (mp, ro) ∈ (mp0, ro0) :: rest ∧ fs ro = Some b
                         ∧ c = CallStat b "/") as Hrest.
    { intros out1 calls' Hrest Hc.
      destruct (IH _ _ _ Hrest Hc) as (mp & ro & b & Hin & ? & ?).
      exists mp, ro, b. split; [by right|done]. }
    unfold overlayRoute. destruct (fs ro0) as [b0|] eqn:Hfs.
    + cbn. destruct (fsStat b0 "/") as [st|err]; cbn.
      * destruct (overlayRoutes rest _) as [calls1 res1] eqn:Hloop.
        intros [= <- <-] [->|Hc]%elem_of_cons.
        -- exists mp0, ro0, b0. split; [left|done].
        -- by eapply Hrest.
      * intros [= <- _] [->|Hc]%elem_of_cons.
        -- exists mp0, ro0, b0. split; [left|done].
        -- by apply not_elem_of_nil in Hc.
    + destruct (out0 !! mp0) as [e|]; [destruct (IsDir e)|]; cbn;
        destruct (overlayRoutes rest _) as [calls1 res1] eqn:Hloop;
        intros [= <- <-] Hc; by eapply Hrest.
Qed.

Lemma overlayRoutes_fails (routeCopy : list (string * subRoute Filesystem))
    out0 calls err :
  overlayRoutes routeCopy out0 = (calls, Returned (Err err)) →
  ∃ mp ro b, (mp, ro) ∈ routeCopy ∧ fs ro = Some b ∧ fsStat b "/" = Err err.
Proof.
  revert out0 calls. induction routeCopy as [|[mp0 ro0] rest IH];
    intros out0 calls; simpl; [done|].
  destruct (overlayRoute mp0 ro0 out0) as [calls0 [[out1|err0]|v]] eqn:Hstep;
    cbn; try done.
  - destruct (overlayRoutes rest out1) as [calls1 res1] eqn:Hrest.
    intros [= _ ->].
    destruct (IH _ _ Hrest) as (mp & ro & b & Hin & ? & ?).
    exists mp, ro, b. split; [by right|done].
  - intros [= _ <-]. unfold overlayRoute in Hstep.
    destruct (fs ro0) as [b0|] eqn:Hfs.
    + cbn in Hstep. destruct (fsStat b0 "/") as [st|err1] eqn:Hstat; [done|].
      injection Hstep as _ <-. exists mp0, ro0, b0. split; [left|done].
    + destruct (out0 !! mp0) as [e|]; [destruct (IsDir e)|]; done.
Qed.

Lemma mergeEntries_calls routeCopy entries calls res c :
  mergeEntries routeCopy entries = (calls, res) → c ∈ calls →
  ∃ mp ro b, (mp, ro) ∈ routeCopy ∧ fs ro = Some b ∧ c = CallStat b "/".
Proof.
  unfold mergeEntries.
  destruct (overlayRoutes routeCopy (indexEntries entries))
    as [calls0 [[out|err]|v]] eqn:Hover; cbn; intros [= <- _] Hc;
    rewrite ?app_nil_r in Hc; by eapply overlayRoutes_calls.
Qed.

Lemma mergeEntries_fails routeCopy entries calls err :
  mergeEntries routeCopy entries = (calls, Returned (Err err)) →
  ∃ mp ro b, (mp, ro) ∈ routeCopy ∧ fs ro = Some b ∧ fsStat b "/" = Err err.
Proof.
  unfold mergeEntries.
  destruct (overlayRoutes routeCopy (indexEntries entries))
    as [calls0 [[out|err0]|v]] eqn:Hover; cbn; try done.
  intros [= _ <-]. by eapply overlayRoutes_fails.
Qed.

End ReadDirMore.

Section ReadDirOutcomes.
Context {Filesystem File : Type} `{!EqDecision Filesystem}.
Context `{!Billy Filesystem File}.
Implicit Types (r : Router Filesystem) (ro sr : subRoute Filesystem).
Implicit Types (out : gmap string FileInfo) (mp fn : string).
Variable rangeOrder : gmap string (subRoute Filesystem) →
                      list (string * subRoute Filesystem).
Hypothesis rangeOrder_enumerates : ∀ m, rangeOrder m ≡ₚ map_to_list m.

(** [ReadDir] on a node with children, once the path is resolved. *)
Lemma ReadDir_merging r p sub b :
  let sr := readDirLoop (Go.Split p) (Router_routes r) in
  resolvePath r p = (sub, Some b) → routes sr ≠ ∅ →
  ReadDir rangeOrder r p
  = match fsReadDir b sub with
    | Err err =>
        if IsNotExist err
        then (CallReadDir b sub :: (mergeEntries (rangeOrder (routes sr)) []).1,
              (mergeEntries (rangeOrder (routes sr)) []).2)
        else ([CallReadDir b sub], Returned (Err err))
    | Ok entries =>
        (CallReadDir b sub :: (mergeEntries (rangeOrder (routes sr)) entries).1,
         (mergeEntries (rangeOrder (routes sr)) entries).2)
    end.
Proof.
  intros sr Hres Hchildren. unfold ReadDir. fold sr. rewrite Hres.
  rewrite bool_decide_eq_false_2 by by rewrite map_size_empty_iff.
  cbn. destruct (fsReadDir b sub) as [entries|err].
  - by destruct (mergeEntries _ entries).
  - destruct (IsNotExist err); [|done]. cbn. by destruct (mergeEntries _ []).
Qed.

(** X10.  The listing [ReadDir] returns for a node with children has one
    entry for each name that a real entry or a child of the node has, and
    no other; the entries come in ascending order of these names; and a
    real entry whose name is not that of a child is listed as the backend
    returned it (the last one of that name). *)
Theorem ReadDir_listing_names r p calls listing :
  let sr := readDirLoop (Go.Split p) (Router_routes r) in
  routes sr ≠ ∅ →
  ReadDir rangeOrder r p = (calls, Returned (Ok listing)) →
  ∃ b entries out,
    (resolvePath r p).2 = Some b
    ∧ (fsReadDir b (resolvePath r p).1 = Ok entries
       ∨ entries = [] ∧ ∃ err, fsReadDir b (resolvePath r p).1 = Err err
                               ∧ IsNotExist err = true)
    ∧ listing = sortedListing out
    ∧ length listing = length (sortedNames out)
    ∧ Sorted stringLe (sortedNames out) ∧ NoDup (sortedNames out)
    ∧ (∀ fn, fn ∈ sortedNames out
             ↔ (∃ e, e ∈ entries ∧ Name e = fn) ∨ is_Some (routes sr !! fn))
    ∧ (∀ fn e, routes sr !! fn = None →
         last (filter (λ e, Name e = fn) entries) = Some e →
         ∃ i, sortedNames out !! i = Some fn ∧ listing !! i = Some e).
Proof.
  intros sr Hchildren Hread.
  destruct (ReadDir_returns rangeOrder r p calls listing Hchildren Hread)
    as (b & entries & calls' & Hb & Hentries & Hm).
  apply (mergeEntries_names (routes sr)) in Hm
    as (out & -> & Hin & Hout & Hdom); [|done].
  exists b, entries, out. split; [done|]. split; [done|]. split; [done|].
  split; [unfold sortedListing; by rewrite length_fmap|].
  split; [apply sortedNames_sorted|]. split; [apply sortedNames_sorted|].
  split.
  - intros fn. rewrite elem_of_sortedNames, Hdom, elem_of_union, !elem_of_dom.
    by rewrite indexEntries_is_Some.
  - intros fn e Hfn Hlast. apply sortedListing_lookup.
    by rewrite (Hout fn Hfn), indexEntries_last_wins.
Qed.

(** X11.  When the backend lists nothing for the directory, or reports
    that it does not exist, and the node has children, the listing that
    [ReadDir] returns has one entry for each child and no other: a virtual
    directory for a child without backend, and for a child with a backend
    what its [Stat("/")] returns. *)
Theorem ReadDir_lists_children_only r p calls listing b :
  let sr := readDirLoop (Go.Split p) (Router_routes r) in
  routes sr ≠ ∅ →
  (resolvePath r p).2 = Some b →
  (fsReadDir b (resolvePath r p).1 = Ok []
   ∨ ∃ err, fsReadDir b (resolvePath r p).1 = Err err ∧ IsNotExist err = true) →
  ReadDir rangeOrder r p = (calls, Returned (Ok listing)) →
  length listing = size (routes sr)
  ∧ ∃ out,
      listing = sortedListing out
      ∧ dom out = dom (routes sr)
      ∧ ∀ mp ro, routes sr !! mp = Some ro →
          ∃ x, out !! mp = Some x
               ∧ (fs ro = None → x = Virtual (VirtualDir mp (mtime ro)))
               ∧ (∀ b', fs ro = Some b' → fsStat b' "/" = Ok x).
Proof.
  intros sr Hchildren Hb Hempty Hread.
  destruct (ReadDir_returns rangeOrder r p calls listing Hchildren Hread)
    as (b0 & entries & calls' & Hb0 & Hentries & Hm).
  assert (entries = []) as ->.
  { rewrite Hb in Hb0. injection Hb0 as <-.
    destruct Hentries as [Hok|[-> _]]; [|done].
    destruct Hempty as [Hnil|(err & Herr & _)]; congruence. }
  apply (mergeEntries_names (routes sr)) in Hm
    as (out & -> & Hin & Hout & Hdom); [|done].
  assert (dom out = dom (routes sr)) as Hdom'.
  { rewrite Hdom. unfold indexEntries. simpl.
    by rewrite dom_empty_L, (left_id_L ∅ (∪)). }
  split.
  - by rewrite sortedListing_length, <- !size_dom, Hdom'.
  - exists out. split; [done|]. split; [done|].
    intros mp ro Hro. destruct (Hin mp ro Hro) as (x & Hx & Hlook).
    exists x. split; [done|]. unfold overlaid in Hx.
    unfold indexEntries in Hx. simpl in Hx. rewrite lookup_empty in Hx.
    split.
    + intros Hfs. by rewrite Hfs in Hx.
    + intros b' Hfs. by rewrite Hfs in Hx.
Qed.

(** X12.  An error that [ReadDir] returns is the error of a backend,
    unchanged: that of [ReadDir] of the resolved backend (any error when
    the node has no children, an error other than "does not exist" when it
    has), or that of [Stat("/")] of a backend bound at a child of the
    node. *)
Theorem ReadDir_error_origin r p calls err :
  let sr := readDirLoop (Go.Split p) (Router_routes r) in
  ReadDir rangeOrder r p = (calls, Returned (Err err)) →
  ∃ b, (resolvePath r p).2 = Some b
       ∧ ((fsReadDir b (resolvePath r p).1 = Err err
           ∧ (routes sr = ∅ ∨ IsNotExist err = false))
          ∨ (routes sr ≠ ∅
             ∧ ∃ mp ro b', routes sr !! mp = Some ro ∧ fs ro = Some b'
                           ∧ fsStat b' "/" = Err err)).
Proof.
  intros sr. destruct (resolvePath r p) as [sub recv] eqn:Hres.
  destruct recv as [b|].
  2: { unfold ReadDir. rewrite Hres. simpl. by case_bool_decide. }
  destruct (decide (size (routes sr) = 0)) as [Hsize|Hsize].
  - unfold ReadDir. fold sr. rewrite Hres, bool_decide_eq_true_2 by done.
    simpl. intros [= _ Herr]. exists b. split; [done|]. left.
    split; [done|]. left. by apply map_size_empty_iff.
  - assert (routes sr ≠ ∅) as Hchildren by by rewrite <- map_size_empty_iff.
    rewrite (ReadDir_merging r p sub b Hres Hchildren). fold sr.
    assert (∀ entries,
              (mergeEntries (rangeOrder (routes sr)) entries).2 = Returned (Err err) →
              ∃ mp ro b', routes sr !! mp = Some ro ∧ fs ro = Some b'
                          ∧ fsStat b' "/" = Err err) as Hstat.
    { intros entries Hm.
      destruct (mergeEntries _ entries) as [calls' res] eqn:Heq. simpl in Hm.
      subst res. apply mergeEntries_fails in Heq as (mp & ro & b' & Hin & ? & ?).
      exists mp, ro, b'. split; [|done].
      apply elem_of_map_to_list. by rewrite <- rangeOrder_enumerates. }
    intros Hread. exists b. split; [done|]. simpl. revert Hread.
    destruct (fsReadDir b sub) as [entries|err0] eqn:Hlist.
    + intros [= _ Hm]. right. split; [done|]. by eapply Hstat.
    + destruct (IsNotExist err0) eqn:Hne.
      * intros [= _ Hm]. right. split; [done|]. by eapply Hstat.
      * intros [= _ <-]. left. split; [done|]. by right.
Qed.

(** X13.  The backend calls of a [ReadDir], whatever its outcome, are
    [ReadDir] of the resolved backend on the backend-relative path and
    [Stat("/")] of backends bound at children of the node: it never calls
    another method or another backend. *)
Theorem ReadDir_calls_only r p calls res c :
  let sr := readDirLoop (Go.Split p) (Router_routes r) in
  ReadDir rangeOrder r p = (calls, res) → c ∈ calls →
  (∃ b, (resolvePath r p).2 = Some b ∧ c = CallReadDir b (resolvePath r p).1)
  ∨ (∃ mp ro b, routes sr !! mp = Some ro ∧ fs ro = Some b ∧ c = CallStat b "/").
Proof.
  intros sr. destruct (resolvePath r p) as [sub recv] eqn:Hres.
  destruct recv as [b|].
  2: { unfold ReadDir. rewrite Hres. simpl.
       case_bool_decide; cbn; intros [= <- _] Hc; by apply not_elem_of_nil in Hc. }
  destruct (decide (size (routes sr) = 0)) as [Hsize|Hsize].
  - unfold ReadDir. fold sr. rewrite Hres, bool_decide_eq_true_2 by done.
    simpl. intros [= <- _] ->%list_elem_of_singleton. left. eauto.
  - assert (routes sr ≠ ∅) as Hchildren by by rewrite <- map_size_empty_iff.
    rewrite (ReadDir_merging r p sub b Hres Hchildren). fold sr. simpl.
    assert (∀ entries,
              c ∈ CallReadDir b sub :: (mergeEntries (rangeOrder (routes sr)) entries).1 →
              (∃ b0, Some b = Some b0 ∧ c = CallReadDir b0 sub)
              ∨ (∃ mp ro b0, routes sr !! mp = Some ro ∧ fs ro = Some b0
                             ∧ c = CallStat b0 "/")) as Hcalls.
    { intros entries [->|Hc]%elem_of_cons; [left; eauto|]. right.
      destruct (mergeEntries _ entries) as [calls' res'] eqn:Heq. simpl in Hc.
      destruct (mergeEntries_calls _ _ _ _ _ Heq Hc) as (mp & ro & b0 & Hin & ? & ?).
      exists mp, ro, b0. split; [|done].
      apply elem_of_map_to_list. by rewrite <- rangeOrder_enumerates. }
    destruct (fsReadDir b sub) as [entries|err0].
    + intros [= <- _]. apply Hcalls.
    + destruct (IsNotExist err0).
      * intros [= <- _]. apply Hcalls.
      * intros [= <- _] ->%list_elem_of_singleton. left. eauto.
Qed.

End ReadDirOutcomes.

(** ** Failures of [Open], [Create] and [OpenFile] *)

Section OpenFailures.
Context {Filesystem File : Type} `{!EqDecision Filesystem}.
Context `{!Billy Filesystem File}.
Implicit Types (r : Router Filesystem) (p : string).

Lemma wrap_fails (recv : option Filesystem) c (answer : Filesystem → result File)
    p calls err :
  (res ← invoke recv c answer;
   match res with
   | Err err => mret (Err err)
   | Ok fh => mret (Ok (WrappedFile fh p))
   end) = (calls, Returned (Err err)) →
  ∃ b, recv = Some b ∧ answer b = Err err ∧ calls = [c b].
Proof.
  destruct recv as [b|]; [|done]. cbn.
  destruct (answer b) as [fh|err0] eqn:Hans; [done|].
  intros [= <- <-]. eauto.
Qed.

(** X14.  When [Open], [Create] or [OpenFile] fails, the error is the one
    the resolved backend returned for the backend-relative path, unchanged,
    and that call is the only one made. *)
Theorem open_failure_is_the_backends r p flag mode calls err :
  (Open r p = (calls, Returned (Err err)) →
     ∃ b, (resolvePath r p).2 = Some b
          ∧ fsOpen b (resolvePath r p).1 = Err err
          ∧ calls = [CallOpen b (resolvePath r p).1])
  ∧ (Create r p = (calls, Returned (Err err)) →
     ∃ b, (resolvePath r p).2 = Some b
          ∧ fsCreate b (resolvePath r p).1 = Err err
          ∧ calls = [CallCreate b (resolvePath r p).1])
  ∧ (OpenFile r p flag mode = (calls, Returned (Err err)) →
     ∃ b, (resolvePath r p).2 = Some b
          ∧ fsOpenFile b (resolvePath r p).1 flag mode = Err err
          ∧ calls = [CallOpenFile b (resolvePath r p).1 flag mode]).
Proof.
  unfold Open, Create, OpenFile.
  destruct (resolvePath r p) as [sub recv]. simpl.
  split; [|split]; intros H; apply wrap_fails in H as (b & ? & ? & ?); eauto.
Qed.

End OpenFailures.

(** ** The further properties at concrete inputs *)

Module MoreWitness.
Import Doubles.

Lemma Mount_makes_path_witness :
  ∃ n, nodeAt [""] (Router_routes (Mount plain "/srv" (Empty 5) 20)) = Some n
       ∧ mtime n = 20 ∧ fs n = Some (Empty 5).
Proof.
  destruct (Mount_makes_path plain "/srv" (Empty 5) 20 [""]) as (n & Hn & Hm & Hf).
  { exists []. reflexivity. }
  exists n. split; [exact Hn|]. split; [exact Hm | exact Hf].
Defined.

Lemma Mount_again_replaces_witness :
  Mount (Mount plain "/a" (Empty 1) 11) "/b" (Empty 2) 12
  = Mount plain "/b" (Empty 2) 12.
Proof. apply Mount_again_replaces. reflexivity. Defined.

Lemma Mount_Umount_restores_witness :
  Umount (Mount plain "/tmp" (Empty 1) 11) "/tmp" 12 = Returned (New (Holding []) 12).
Proof. apply (Mount_Umount_restores plain "/tmp" (Empty 1) 11 12). reflexivity. Defined.

Lemma Umount_frame_witness :
  boundAt [""] (Router_routes (New (Holding []) 12)) = None
  ∧ boundAt ["."] (Router_routes (New (Holding []) 12))
    = boundAt ["."] (Router_routes (Mount plain "/tmp" (Empty 1) 11))
  ∧ nodeAt ["."] (Router_routes (New (Holding []) 12))
    = nodeAt ["."] (Router_routes (Mount plain "/tmp" (Empty 1) 11)).
Proof.
  destruct (Umount_frame (Mount plain "/tmp" (Empty 1) 11) "/tmp" 12
              (New (Holding []) 12) eq_refl) as (Hgone & Hbound & Hnode).
  split; [exact Hgone|]. split.
  - apply Hbound. discriminate.
  - apply Hnode. intros [k Hk]. discriminate Hk.
Defined.

Lemma Umount_node_afterwards_witness :
  (nodeAt [""] (Router_routes (New (Holding []) 12)) = None
   ∧ Umount (New (Holding []) 12) "/tmp" 13 = Panicked (NotAMountpoint ""))
  ∧ nodeAt [""] (Router_routes deep)
    = Some (SubRoute None 11 {[ "x" := SubRoute (Some (Empty 3)) 11 ∅ ]}).
Proof.
  split.
  - destruct (Umount_node_afterwards (Mount plain "/tmp" (Empty 1) 11) "/tmp" 12
                (New (Holding []) 12) (SubRoute (Some (Empty 1)) 11 ∅)
                eq_refl eq_refl) as [Hleaf _].
    destruct (Hleaf eq_refl) as [Hgone Hpanic]. split; [exact Hgone|]. apply Hpanic.
  - destruct (Umount_node_afterwards deep "/any" 20 deep
                (SubRoute None 11 {[ "x" := SubRoute (Some (Empty 3)) 11 ∅ ]})
                eq_refl eq_refl) as [_ Hinner].
    apply Hinner. intros Hempty.
    assert (({[ "x" := SubRoute (Some (Empty 3)) 11 ∅ ]}
              : gmap string (subRoute backend)) !! "x" = None) as Hnone
      by (simpl in Hempty; rewrite Hempty; reflexivity).
    discriminate Hnone.
Defined.

Lemma Root_Capabilities_witness :
  Root (Mount plain "/tmp" (Empty 1) 11) = Returned "/srv"
  ∧ Capabilities (Mount plain "/tmp" (Empty 1) 11) = 63%N.
Proof.
  exact (Root_Capabilities_of_root (Holding []) 10 [DoMount "/tmp" (Empty 1) 11]
           (Mount plain "/tmp" (Empty 1) 11) eq_refl).
Defined.

Lemma listed_has_children (root : backend) :
  routes (readDirLoop (Go.Split "") (Router_routes (table root twoMounts))) ≠ ∅.
Proof.
  intros Hempty.
  assert (routes (readDirLoop (Go.Split "") (Router_routes (table root twoMounts)))
            !! "tmp" = None) as Hnone by (rewrite Hempty; reflexivity).
  vm_compute in Hnone. discriminate Hnone.
Defined.

Example ReadDir_listed :
  ReadDir map_to_list listed ""
  = ([CallReadDir (Holding [fileA; dirTmp; fileA']) "."; CallStat (Holding []) "/"],
     Returned (Ok [fileA'; holdingRoot; Virtual (VirtualDir "var" 11)])).
Proof. vm_compute. reflexivity. Qed.

Lemma ReadDir_listing_names_witness :
  ∃ out,
    [fileA'; holdingRoot; Virtual (VirtualDir "var" 11)] = sortedListing out
    ∧ Sorted stringLe (sortedNames out) ∧ NoDup (sortedNames out)
    ∧ length (sortedNames out) = 3.
Proof.
  destruct (ReadDir_listing_names map_to_list (λ m, reflexivity _) listed ""
              [CallReadDir (Holding [fileA; dirTmp; fileA']) ".";
               CallStat (Holding []) "/"]
              [fileA'; holdingRoot; Virtual (VirtualDir "var" 11)])
    as (b & entries & out & _ & _ & Hlisting & Hlen & Hsorted & Hnodup & _).
  - apply listed_has_children.
  - vm_compute. reflexivity.
  - exists out. split; [exact Hlisting|]. split; [exact Hsorted|].
    split; [exact Hnodup|]. symmetry. exact Hlen.
Defined.

Lemma ReadDir_lists_children_only_witness :
  length [holdingRoot; Virtual (VirtualDir "var" 11)]
  = size (routes (readDirLoop (Go.Split "") (Router_routes overEmpty))).
Proof.
  apply (ReadDir_lists_children_only map_to_list (λ m, reflexivity _) overEmpty ""
           [CallReadDir (Empty 3) "."; CallStat (Holding []) "/"]
           [holdingRoot; Virtual (VirtualDir "var" 11)] (Empty 3)).
  - apply listed_has_children.
  - reflexivity.
  - left. reflexivity.
  - vm_compute. reflexivity.
Defined.

Lemma ReadDir_error_origin_witness :
  ∃ b, (resolvePath overBroken "").2 = Some b
       ∧ ((fsReadDir b (resolvePath overBroken "").1 = Err (BackendError "io")
           ∧ (routes (readDirLoop (Go.Split "") (Router_routes overBroken)) = ∅
              ∨ IsNotExist (BackendError "io") = false))
          ∨ (routes (readDirLoop (Go.Split "") (Router_routes overBroken)) ≠ ∅
             ∧ ∃ mp ro b',
                 routes (readDirLoop (Go.Split "") (Router_routes overBroken)) !! mp
                 = Some ro
                 ∧ fs ro = Some b' ∧ fsStat b' "/" = Err (BackendError "io"))).
Proof.
  apply (ReadDir_error_origin map_to_list (λ m, reflexivity _) overBroken ""
           [CallReadDir (Broken (BackendError "io")) "."]).
  vm_compute. reflexivity.
Defined.

Lemma ReadDir_calls_only_witness :
  (∃ b, (resolvePath listed "").2 = Some b
        ∧ CallStat (Holding []) "/" = CallReadDir b (resolvePath listed "").1)
  ∨ (∃ mp ro b,
       routes (readDirLoop (Go.Split "") (Router_routes listed)) !! mp = Some ro
       ∧ fs ro = Some b ∧ CallStat (Holding []) "/" = CallStat b "/").
Proof.
  apply (ReadDir_calls_only map_to_list (λ m, reflexivity _) listed ""
           [CallReadDir (Holding [fileA; dirTmp; fileA']) "."; CallStat (Holding []) "/"]
           (Returned (Ok [fileA'; holdingRoot; Virtual (VirtualDir "var" 11)]))).
  - vm_compute. reflexivity.
  - right. left.
Defined.

Lemma open_failure_witness :
  ∃ b, (resolvePath overBroken "/x").2 = Some b
       ∧ fsOpen b (resolvePath overBroken "/x").1 = Err (BackendError "io")
       ∧ [CallOpen (Broken (BackendError "io")) ""]
         = [CallOpen b (resolvePath overBroken "/x").1].
Proof.
  destruct (open_failure_is_the_backends overBroken "/x" 0%Z 0%N
              [CallOpen (Broken (BackendError "io")) ""] (BackendError "io"))
    as (Hopen & _ & _).
  apply Hopen. reflexivity.
Defined.

End MoreWitness.

(** ** The loops of [Mount] and [Umount] on a new path *)

Section NewPath.
Context {Filesystem : Type} `{!EqDecision Filesystem}.
Implicit Types (sr n : subRoute Filesystem) (q rest : list string) (seg : string).

(** X15.  Run on segments of which the first has no node in the table,
    the loop of [Mount] makes one node for each segment, stamped with the
    time of the call and without backend except the last, which gets the
    backend; the loops of [Umount] on the same segments then take all these
    nodes away again: the table is as before, with the time stamp of the
    node they started from set to the time of the unmount. *)
Theorem loops_make_and_prune_path seg rest (b : Filesystem) now now' sr :
  routes sr !! seg = None →
  let sp := seg :: rest in
  (∀ q, q ≠ [] → q `prefix_of` sp →
     ∃ n, nodeAt q (mountLoop sp b now sr) = Some n
          ∧ mtime n = now
          ∧ fs n = if decide (q = sp) then Some b else None)
  ∧ umountLoop sp now' (mountLoop sp b now sr)
    = Some (SubRoute (fs sr) now' (routes sr), true).
Proof.
  intros Hnew sp. split; [|by apply umountLoop_mountLoop_new].
  intros q Hq Hprefix.
  destruct (mountLoop_prefix_node sp b now sr q Hprefix) as (n & Hn & Hmtime).
  exists n. split; [done|]. split; [by destruct q|].
  assert (boundAt q (mountLoop sp b now sr) = fs n) as <-
    by (unfold boundAt; by rewrite Hn).
  destruct (decide (q = sp)) as [->|Hne].
  - apply boundAt_mountLoop_eq.
  - rewrite boundAt_mountLoop_ne by done.
    destruct q as [|seg' q]; [done|].
    pose proof (prefix_cons_inv_1 _ _ _ _ Hprefix) as ->.
    by rewrite boundAt_cons, Hnew.
Qed.

End NewPath.

Module LoopWitness.
Import Doubles.

Lemma loops_make_and_prune_path_witness :
  (∃ n, nodeAt ["var"] (mountLoop ["var"; "empty"] (Empty 3) 11 (Router_routes plain))
        = Some n ∧ mtime n = 11 ∧ fs n = None)
  ∧ umountLoop ["var"; "empty"] 12
      (mountLoop ["var"; "empty"] (Empty 3) 11 (Router_routes plain))
    = Some (Router_routes (New (Holding []) 12), true).
Proof.
  destruct (loops_make_and_prune_path "var" ["empty"] (Empty 3) 11 12
              (Router_routes plain) eq_refl) as [Hmade Hpruned].
  split; [|exact Hpruned].
  destruct (Hmade ["var"]) as (n & Hn & Hmtime & Hfs).
  - discriminate.
  - exists ["empty"]. reflexivity.
  - exists n. split; [exact Hn|]. split; [exact Hmtime | exact Hfs].
Defined.

Lemma resolve_cut_in_range_witness :
  resolveLoop ["a"; "b"; "x"] 0
    (mountLoop ["a"; "b"] (Empty 3) 11 (Router_routes plain)) 0 = 1
  ∧ Go.Join ["a"] +:+ "/" +:+ Go.Join ["b"; "x"] = Go.Join ["a"; "b"; "x"].
Proof.
  split; [reflexivity|].
  destruct (resolve_cut_in_range ["a"; "b"; "x"]
              (mountLoop ["a"; "b"] (Empty 3) 11 (Router_routes plain)))
    as (_ & _ & Hjoin & _).
  apply Hjoin. change (0 < 1 < 3)%nat. lia.
Defined.

End LoopWitness.
